(** * Mock-replacement scanner: scan, aggregate, classify, render

    A shallow embedding of [scripts/implement-mock-replacement.js]:
    [findMockUsage], [categorizeMockUsageByModule] and [main].

    Modelling choices.
    - A JavaScript string is a [string] (a list of 8-bit characters).  Every
      string operation the script uses ([includes], [split], [join], [===],
      [toLowerCase] followed by a test for an ASCII word) gives the same
      answer on the UTF-8 bytes as on the UTF-16 code units, because all the
      needles are ASCII and no non-ASCII character lower-cases to one of the
      letters of the needle.
    - The array [results] and the arrays [matches] are lists; pushing onto
      the array stored in an entry is a functional update of that entry.
    - The object [modules] is an association list in insertion order, which
      is the order [Object.entries] enumerates non-numeric keys in.
    - The child process ([grep] through [execSync]), [process.cwd] and
      [fs.writeFileSync] are the environment: they are parameters. *)

From Stdlib Require Import String Ascii List Bool Arith Lia Permutation.
From Stdlib Require Import DecimalString NArith.
Import ListNotations.

Local Open Scope string_scope.
Local Open Scope list_scope.

(** ** JavaScript string operations used by the script *)

Module Js.

Definition nl : string := String "010"%char EmptyString.

Definition colon : ascii := ":"%char.

Definition newline : ascii := "010"%char.

(** [s.includes(sub)] *)
Fixpoint includes (s sub : string) : bool :=
  if prefix sub s then true
  else match s with
       | EmptyString => false
       | String _ s' => includes s' sub
       end.

(** [s.split(sep)] for a one-character separator; never returns the empty
    array. *)
Fixpoint split (sep : ascii) (s : string) : list string :=
  match s with
  | EmptyString => [EmptyString]
  | String c s' =>
      if Ascii.eqb c sep then EmptyString :: split sep s'
      else match split sep s' with
           | [] => [String c EmptyString]
           | p :: ps => String c p :: ps
           end
  end.

(** [parts.join(sep)] *)
Definition join (sep : string) (parts : list string) : string :=
  String.concat sep parts.

(** [Boolean(s)] on a string: only the empty string is falsy. *)
Definition truthy (s : string) : bool :=
  match s with
  | EmptyString => false
  | String _ _ => true
  end.

Definition lower_char (c : ascii) : ascii :=
  let n := nat_of_ascii c in
  if (Nat.leb 65 n && Nat.leb n 90)%bool then ascii_of_nat (n + 32) else c.

Definition upper_char (c : ascii) : ascii :=
  let n := nat_of_ascii c in
  if (Nat.leb 97 n && Nat.leb n 122)%bool then ascii_of_nat (n - 32) else c.

(** [s.toLowerCase()] *)
Fixpoint toLowerCase (s : string) : string :=
  match s with
  | EmptyString => EmptyString
  | String c s' => String (lower_char c) (toLowerCase s')
  end.

(** [s.charAt(0).toUpperCase() + s.slice(1)] *)
Definition capitalize (s : string) : string :=
  match s with
  | EmptyString => EmptyString
  | String c s' => String (upper_char c) s'
  end.

(** [`${n}`] for a non-negative integer. *)
Definition of_nat (n : nat) : string :=
  NilEmpty.string_of_uint (Nat.to_uint n).

End Js.

(** ** Data model *)

(** One element of [results]: [{ filepath, matches }]. *)
Record entry : Type := Entry {
  filepath : string;
  matches : list string
}.

(** One matching line, attributed to the pattern whose search printed it. *)
Record RawMatch : Type := Raw {
  filePath : string;
  lineContext : string;
  pattern : string
}.

(** What [execSync] does: return the standard output, or throw an error that
    carries the exit status (absent when the child was killed) and a
    message. *)
Inductive exec_result : Type :=
| Stdout (output : string)
| ExecError (status : option nat) (message : string).

Definition MOCK_PATTERNS : list string :=
  [ "mock"; "fake"; "dummy"; "placeholder"; "sample data"; "test data";
    "staticData"; "mockData"; "MOCK_" ].

(** ** findMockUsage *)

(** [results.find(entry => entry.filepath === filepath)] *)
Definition find_entry (fp : string) (results : list entry) : option entry :=
  find (fun e => filepath e =? fp)%string results.

(** [existingEntry.matches.push(context)], where [existingEntry] is the first
    element of [results] with that filepath. *)
Fixpoint push_match (fp context : string) (results : list entry) : list entry :=
  match results with
  | [] => []
  | e :: rest =>
      if (filepath e =? fp)%string
      then Entry (filepath e) (matches e ++ [context]) :: rest
      else e :: push_match fp context rest
  end.

(** The body of the inner loop after the three skip tests (lines 65-77). *)
Definition store_match (results : list entry) (fp context : string) : list entry :=
  match find_entry fp results with
  | Some existingEntry =>
      if existsb (fun m => m =? context)%string (matches existingEntry)
      then results
      else push_match fp context results
  | None => results ++ [Entry fp [context]]
  end.

(** The three exclusion tests of the inner loop (lines 50-63). *)
Definition is_test_file (m : RawMatch) : bool :=
  Js.includes (filePath m) "test" || Js.includes (filePath m) "__tests__"
  || Js.includes (filePath m) "spec".

Definition in_node_modules (m : RawMatch) : bool :=
  Js.includes (filePath m) "node_modules".

Definition is_real_data (m : RawMatch) : bool :=
  Js.includes (Js.toLowerCase (lineContext m)) "database".

(** The body of the inner loop on an already split line (lines 50-77). *)
Definition record_match (results : list entry) (m : RawMatch) : list entry :=
  if is_test_file m then results
  else if in_node_modules m then results
  else if is_real_data m then results
  else store_match results (filePath m) (lineContext m).

(** Lines 46-48: [parts[0]] and [parts.slice(1).join(':')]. *)
Definition parse_line (pat line : string) : RawMatch :=
  let parts := Js.split Js.colon line in
  Raw (hd EmptyString parts) (Js.join ":" (tl parts)) pat.

(** [output.split('\n').filter(Boolean)] *)
Definition output_lines (output : string) : list string :=
  filter Js.truthy (Js.split Js.newline output).

Section Scan.

Variable grep : string -> exec_result.

(** One iteration of [MOCK_PATTERNS.forEach]: the [try] block, and the
    [catch] that leaves [results] alone. *)
Definition scan_pattern (results : list entry) (pat : string) : list entry :=
  match grep pat with
  | Stdout output =>
      fold_left (fun acc line => record_match acc (parse_line pat line))
                (output_lines output) results
  | ExecError _ _ => results
  end.

Definition findMockUsage_with (patterns : list string) : list entry :=
  fold_left scan_pattern patterns [].

Definition findMockUsage : list entry := findMockUsage_with MOCK_PATTERNS.

(** The raw matches of a run, in the order the loops visit them. *)
Definition raw_matches (patterns : list string) : list RawMatch :=
  flat_map (fun pat =>
              match grep pat with
              | Stdout output => map (parse_line pat) (output_lines output)
              | ExecError _ _ => []
              end) patterns.

(** What [findMockUsage] writes with [console.error]. *)
Definition scan_errors (patterns : list string) : list string :=
  flat_map (fun pat =>
              match grep pat with
              | Stdout _ => []
              | ExecError status message =>
                  match status with
                  | Some 1 => []
                  | _ => [("Error searching for pattern "
                           ++ String "034"%char pat ++ String "034"%char ":"
                           ++ " " ++ message)%string]
                  end
              end) patterns.

End Scan.

(** A model of the child process for literal patterns: [tree] lists the files
    [grep -r] visits (those with an included extension, outside
    [node_modules]) in traversal order, each with its lines. *)
Definition grep_file (pat : string) (file : string * list string) : string :=
  String.concat EmptyString
    (map (fun line => (fst file ++ ":" ++ line ++ Js.nl)%string)
         (filter (fun line => Js.includes line pat) (snd file))).

Definition grep_tree (tree : list (string * list string)) (pat : string) : exec_result :=
  match String.concat EmptyString (map (grep_file pat) tree) with
  | EmptyString => ExecError (Some 1) "Command failed"
  | out => Stdout out
  end.

(** The aggregation stage on its own: the loop body run over a sequence of
    raw matches, starting from the empty [results]. *)
Definition aggregate_matches (ms : list RawMatch) : list entry :=
  fold_left record_match ms [].

(** ** The aggregation contract

    [findMockUsage] hard-codes its three exclusion tests; [aggregate] is the
    same loop body with the tests taken from a list, so that a further test
    can be added. *)

Definition EXCLUSIONS : list (RawMatch -> bool) :=
  [is_test_file; in_node_modules; is_real_data].

Definition excluded (preds : list (RawMatch -> bool)) (m : RawMatch) : bool :=
  existsb (fun p => p m) preds.

Definition record_match_under (preds : list (RawMatch -> bool))
  (results : list entry) (m : RawMatch) : list entry :=
  if excluded preds m then results
  else store_match results (filePath m) (lineContext m).

Definition aggregate (preds : list (RawMatch -> bool)) (ms : list RawMatch) : list entry :=
  fold_left (record_match_under preds) ms [].

(** The aggregation as the design document words it: drop the excluded
    matches, group the rest by file in first-seen order, and keep the first
    occurrence of every context of a file. *)
Fixpoint first_occurrences (l : list string) : list string :=
  match l with
  | [] => []
  | x :: rest => x :: filter (fun y => negb (y =? x)%string) (first_occurrences rest)
  end.

Definition kept (preds : list (RawMatch -> bool)) (ms : list RawMatch) : list RawMatch :=
  filter (fun m => negb (excluded preds m)) ms.

Definition contexts_of (fp : string) (ms : list RawMatch) : list string :=
  first_occurrences
    (map lineContext (filter (fun m => filePath m =? fp)%string ms)).

Definition group_by_file (ms : list RawMatch) : list entry :=
  map (fun fp => Entry fp (contexts_of fp ms))
      (first_occurrences (map filePath ms)).

Definition aggregate_spec (preds : list (RawMatch -> bool)) (ms : list RawMatch) : list entry :=
  group_by_file (kept preds ms).

(** The contexts stored for a file ([[]] when the file has no group), and the
    number of contexts stored in all groups. *)
Definition contexts_in (fp : string) (results : list entry) : list string :=
  match find_entry fp results with
  | Some e => matches e
  | None => []
  end.

Definition total_contexts (results : list entry) : nat :=
  list_sum (map (fun e => length (matches e)) results).

(** Every stored context with the file it is stored under. *)
Definition stored_pairs (results : list entry) : list (string * string) :=
  flat_map (fun e => map (pair (filepath e)) (matches e)) results.

(** The part of a raw match the aggregation reads. *)
Definition located (m : RawMatch) : string * string :=
  (filePath m, lineContext m).

(** ** categorizeMockUsageByModule *)

(** The [if]/[else if] chain of lines 99-117. *)
Definition module_of (fp : string) : string :=
  if Js.includes fp "/auth/" || Js.includes fp "/authentication/" then "auth"
  else if Js.includes fp "/assessment/" then "assessment"
  else if Js.includes fp "/item/" || Js.includes fp "/item-banking/" then "item-banking"
  else if Js.includes fp "/psychometric/" then "psychometric"
  else if Js.includes fp "/results/" then "results"
  else if Js.includes fp "/admin/" then "admin"
  else if Js.includes fp "/analytics/" then "analytics"
  else if Js.includes fp "/ui/" || Js.includes fp "/components/" then "ui"
  else "unknown".

Definition modules_t : Type := list (string * list entry).

(** [modules[module]] *)
Definition get_bucket (name : string) (modules : modules_t) : option (list entry) :=
  option_map snd (find (fun kv => fst kv =? name)%string modules).

(** [if (!modules[module]) modules[module] = []]: an array is truthy, so the
    assignment happens exactly when the key is absent, and a new key goes
    last in the enumeration order. *)
Definition ensure_bucket (name : string) (modules : modules_t) : modules_t :=
  match get_bucket name modules with
  | Some _ => modules
  | None => modules ++ [(name, [])]
  end.

(** [modules[module].push(entry)] *)
Fixpoint push_entry (name : string) (e : entry) (modules : modules_t) : modules_t :=
  match modules with
  | [] => []
  | (k, es) :: rest =>
      if (k =? name)%string then (k, es ++ [e]) :: rest
      else (k, es) :: push_entry name e rest
  end.

Definition categorize_step (modules : modules_t) (e : entry) : modules_t :=
  let name := module_of (filepath e) in
  push_entry name e (ensure_bucket name modules).

Definition categorizeMockUsageByModule (mockUsage : list entry) : modules_t :=
  fold_left categorize_step mockUsage [].

(** The classification as the design document words it: an ordered list of
    (path substring, module name) rules, the first rule whose substring
    occurs in the path wins, and a default label. *)
Definition RULES : list (string * string) :=
  [ ("/auth/", "auth"); ("/authentication/", "auth");
    ("/assessment/", "assessment");
    ("/item/", "item-banking"); ("/item-banking/", "item-banking");
    ("/psychometric/", "psychometric");
    ("/results/", "results");
    ("/admin/", "admin");
    ("/analytics/", "analytics");
    ("/ui/", "ui"); ("/components/", "ui") ].

Fixpoint classify_by (rules : list (string * string)) (fp : string) : string :=
  match rules with
  | [] => "unknown"
  | (sub, name) :: rest =>
      if Js.includes fp sub then name else classify_by rest fp
  end.

(** The buckets as the design document words them: one bucket per module
    that occurs, in first-seen order, holding the groups of that module in
    input order. *)
Definition buckets_of (groups : list entry) : modules_t :=
  map (fun name =>
         (name, filter (fun g => module_of (filepath g) =? name)%string groups))
      (first_occurrences (map (fun g => module_of (filepath g)) groups)).

(** The elements of [groups] whose key is [k], in order. *)
Definition keyed (key : entry -> string) (groups : list entry) (k : string) : list entry :=
  filter (fun g => key g =? k)%string groups.

(** ** main *)

Definition REPORT_HEADER : string :=
"# Workstream Mock Replacement Report

## Overview

This report identifies mock data usage in the codebase that needs to be replaced with real Supabase database integration. This is part of the `workstream-mock-replacement` initiative, which aims to enhance the application's reliability by using real data.

## Mock Data Usage

".

Definition REPORT_FOOTER : string :=
"## Implementation Steps

For complete implementation details, please run the full script locally:
```bash
node scripts/implement-mock-replacement.js
```

This script will:
1. Analyze mock data usage across all modules
2. Generate a detailed replacement strategy for each module
3. Create test data utilities for testing
4. Provide code examples for the replacement process

The full implementation will also generate the following patterns:
- Loading state components
- SWR integration for data fetching
- Error handling patterns
- Database connectivity monitoring
".

(** Line 164 is a single-quoted string, not a template. *)
Definition CONTEXT_HEADER : string :=
  "Context (showing 1 of ${entry.matches.length} matches):".

(** The text one iteration of [entries.forEach] appends (lines 163-168). *)
Definition entry_text (e : entry) : string :=
  ("#### `" ++ filepath e ++ "`" ++ Js.nl ++ Js.nl
   ++ CONTEXT_HEADER ++ Js.nl ++ Js.nl
   ++ match matches e with
      | [] => EmptyString
      | first :: _ => "```" ++ Js.nl ++ first ++ Js.nl ++ "```" ++ Js.nl ++ Js.nl
      end)%string.

Definition render_entry (reportContent : string) (e : entry) : string :=
  (reportContent ++ entry_text e)%string.

(** The text of lines 159-160. *)
Definition module_heading (name : string) : string :=
  ("### " ++ Js.capitalize name ++ " Module" ++ Js.nl ++ Js.nl
   ++ "Files with mock data:" ++ Js.nl ++ Js.nl)%string.

(** One iteration of [Object.entries(mockUsageByModule).forEach]. *)
Definition render_module (reportContent : string) (kv : string * list entry) : string :=
  fold_left render_entry (snd kv) (reportContent ++ module_heading (fst kv))%string.

Definition render (mockUsageByModule : modules_t) : string :=
  (fold_left render_module mockUsageByModule REPORT_HEADER ++ REPORT_FOOTER)%string.

(** The text appended for one module, and the concatenation of texts. *)
Definition cat_all (texts : list string) : string :=
  fold_right append EmptyString texts.

Definition module_text (kv : string * list entry) : string :=
  (module_heading (fst kv) ++ cat_all (map entry_text (snd kv)))%string.

(** A call into the environment returns or throws. *)
Inductive outcome (A : Type) : Type :=
| Returned (a : A)
| Thrown (error : string).

Arguments Returned {A} a.
Arguments Thrown {A} error.

(** [search] is the child process, [report_path] is
    [path.join(process.cwd(), ...)], [write_file] is [fs.writeFileSync]. *)
Record environment : Type := Env {
  search : string -> exec_result;
  report_path : outcome string;
  write_file : string -> string -> outcome unit
}.

(** What a run leaves behind: the exit status, the path and content of the
    report when [fs.writeFileSync] returned ([None] when no write returned;
    a write that throws may still have created or truncated the file), and
    the two console streams. *)
Record run : Type := Run {
  exit_status : nat;
  report : option (string * string);
  stdout : list string;
  stderr : list string
}.

Definition report_text (env : environment) : string :=
  render (categorizeMockUsageByModule (findMockUsage (search env))).

Definition main (env : environment) : run :=
  let mockUsage := findMockUsage (search env) in
  let mockUsageByModule := categorizeMockUsageByModule mockUsage in
  let out :=
    [ "Starting mock replacement analysis...";
      "Searching for mock data usage...";
      ("Found " ++ Js.of_nat (length mockUsage) ++ " files with mock data usage")%string;
      ("Categorized mock usage by module: "
       ++ Js.join ", " (map fst mockUsageByModule))%string ] in
  let err := scan_errors (search env) MOCK_PATTERNS in
  match report_path env with
  | Thrown error =>
      Run 1 None out (err ++ [("Error in main process: " ++ error)%string])
  | Returned reportPath =>
      let reportContent := render mockUsageByModule in
      match write_file env reportPath reportContent with
      | Thrown error =>
          Run 1 None out (err ++ [("Error in main process: " ++ error)%string])
      | Returned _ =>
          Run 0 (Some (reportPath, reportContent))
              (out ++ [ ("Generated mock replacement report at " ++ reportPath)%string;
                        "This is a simplified version of the script. For full functionality, please run locally." ])
              err
      end
  end.

(** The report carries, besides the static opening and closing text, some
    further text [s] (a per-module section, a summary, ...). *)
Definition has_text_beyond_template (text : string) : Prop :=
  exists before s after,
    s <> EmptyString /\
    text = (before ++ s ++ after)%string /\
    (before ++ after)%string = (REPORT_HEADER ++ REPORT_FOOTER)%string.

(** * The repository-pattern script

    [findDirectDatabaseAccess] and [main] of
    [scripts/implement-repository-pattern.js].  The environment gives, for a
    module name, the value of [path.join(process.cwd(), 'src', 'modules',
    module)] (or the error it throws), [fs.existsSync], and the child
    process, whose command is determined by the module directory. *)

Module Repo.

Definition MODULES : list string :=
  [ "auth"; "assessment"; "item"; "results"; "psychometric"; "admin";
    "analytics" ].

(** One value of [results]: [{ moduleDir, hasDirectAccess, files }], with
    [None] for [null]. *)
Record access : Type := Access {
  moduleDir : option string;
  hasDirectAccess : bool;
  files : list string
}.

Definition results_t : Type := list (string * access).

(** [results[module] = value]: an existing key keeps its place. *)
Fixpoint assign (key : string) (value : access) (results : results_t) : results_t :=
  match results with
  | [] => [(key, value)]
  | (k, v) :: rest =>
      if (k =? key)%string then (k, value) :: rest
      else (k, v) :: assign key value rest
  end.

(** A write to a field of [results[module]]. *)
Fixpoint update (key : string) (f : access -> access) (results : results_t) : results_t :=
  match results with
  | [] => []
  | (k, v) :: rest =>
      if (k =? key)%string then (k, f v) :: rest
      else (k, v) :: update key f rest
  end.

(** [results[module]] *)
Definition lookup (key : string) (results : results_t) : option access :=
  option_map snd (find (fun kv => fst kv =? key)%string results).

(** [accessFiles.add(filepath)] on a [Set], kept in insertion order. *)
Definition set_add (set : list string) (x : string) : list string :=
  if existsb (fun y => y =? x)%string set then set else set ++ [x].

Record environment : Type := Env {
  module_dir : string -> outcome string;
  existsSync : string -> bool;
  search : string -> exec_result;
  report_path : outcome string;
  write_file : string -> string -> outcome unit
}.

(** The files of the lines of one search: [parts[0]] of every line, through
    a [Set] and [Array.from]. *)
Definition access_files (lines : list string) : list string :=
  fold_left (fun set line => set_add set (hd EmptyString (Js.split Js.colon line)))
            lines [].

(** One iteration of [MODULES.forEach]. *)
Definition scan_module (env : environment) (results : results_t) (module : string) : results_t :=
  let results := assign module (Access None false []) results in
  match module_dir env module with
  | Thrown _ => results
  | Returned dir =>
      if existsSync env dir then
        let results :=
          update module (fun r => Access (Some dir) (hasDirectAccess r) (files r)) results in
        match search env dir with
        | ExecError _ _ => results
        | Stdout output =>
            match output_lines output with
            | [] => results
            | lines =>
                let results :=
                  update module (fun r => Access (moduleDir r) true (files r)) results in
                update module
                  (fun r => Access (moduleDir r) (hasDirectAccess r) (access_files lines))
                  results
            end
        end
      else results
  end.

Definition findDirectDatabaseAccess (env : environment) : results_t :=
  fold_left (scan_module env) MODULES [].

(** What the [catch] of one iteration writes with [console.error]. *)
Definition module_errors (env : environment) (module : string) : list string :=
  let line message :=
    ("Error searching for direct access in " ++ module ++ " module: " ++ message)%string in
  match module_dir env module with
  | Thrown message => [line message]
  | Returned dir =>
      if existsSync env dir then
        match search env dir with
        | Stdout _ => []
        | ExecError (Some 1) _ => []
        | ExecError _ message => [line message]
        end
      else []
  end.

Definition REPORT_HEADER : string :=
"# Workstream Repository Pattern Report

## Overview

This report outlines the implementation of the repository pattern across modules. This is part of the `workstream-repository-pattern` initiative, which aims to improve code organization, testability, and maintainability.

## Current Status

".

Definition REPORT_FOOTER : string :=
"## Implementation

For complete implementation details, please run the full script locally:
```bash
node scripts/implement-repository-pattern.js
```

This script will:
1. Analyze direct database access across all modules
2. Generate repository structures for each module:
   - Repository interfaces defining data access contracts
   - Repository implementations providing data access logic
   - Repository factories for consistent instance access
3. Create example services that use the repositories
4. Generate comprehensive documentation and guides:
   - Repository Pattern Guide
   - Migration Guide

The repository pattern provides:
- Separation of concerns between data access and business logic
- Improved testability with easy mocking
- Consistent error handling and response formatting
- Centralized data access logic
- Better maintainability and code organization

## Next Steps

1. Start with the Assessment Module, which has the most direct database access
2. Follow the Migration Guide to replace direct database access with repository pattern
3. Add unit tests for each repository
4. Update existing tests to use mock repositories
5. Proceed to the next module (Item Module)
".

(** The file list of lines 457-462. *)
Definition files_text (result : access) : string :=
  if (hasDirectAccess result && Nat.ltb 0 (length (files result)))%bool then
    ("- Files with direct access: " ++ Js.of_nat (length (files result)) ++ Js.nl
     ++ (if (Nat.ltb 0 (length (files result)) && Nat.leb (length (files result)) 3)%bool
         then "  - `" ++ Js.join ("`" ++ Js.nl ++ "  - `") (files result)
              ++ "`" ++ Js.nl
         else EmptyString))%string
  else EmptyString.

(** The text one iteration of [Object.entries(directAccessResults).forEach]
    appends; [null] and the empty string are falsy. *)
Definition section_text (kv : string * access) : string :=
  ("### " ++ Js.capitalize (fst kv) ++ " Module" ++ Js.nl ++ Js.nl
   ++ match moduleDir (snd kv) with
      | Some (String c dir) =>
          "- Module directory: `" ++ String c dir ++ "`" ++ Js.nl
          ++ "- Has direct database access: "
          ++ (if hasDirectAccess (snd kv) then "Yes" else "No") ++ Js.nl
          ++ files_text (snd kv)
      | _ => "- Module directory not found" ++ Js.nl
      end
   ++ Js.nl)%string.

Definition render_section (reportContent : string) (kv : string * access) : string :=
  (reportContent ++ section_text kv)%string.

Definition render (results : results_t) : string :=
  (fold_left render_section results REPORT_HEADER ++ REPORT_FOOTER)%string.

Definition main (env : environment) : run :=
  let directAccessResults := findDirectDatabaseAccess env in
  let out := [ "Analyzing codebase for direct database access..." ] in
  let err := flat_map (module_errors env) MODULES in
  match report_path env with
  | Thrown error =>
      Run 1 None out (err ++ [("Error in main process: " ++ error)%string])
  | Returned reportPath =>
      let reportContent := render directAccessResults in
      match write_file env reportPath reportContent with
      | Thrown error =>
          Run 1 None out (err ++ [("Error in main process: " ++ error)%string])
      | Returned _ =>
          Run 0 (Some (reportPath, reportContent))
              (out ++ [ ("Generated summary report at " ++ reportPath)%string;
                        "This is a simplified version of the script. For full functionality, please run locally." ])
              err
      end
  end.

(** What one iteration leaves under its module, read off the branches. *)
Definition module_result (env : environment) (module : string) : access :=
  match module_dir env module with
  | Thrown _ => Access None false []
  | Returned dir =>
      if existsSync env dir then
        match search env dir with
        | ExecError _ _ => Access (Some dir) false []
        | Stdout output =>
            match output_lines output with
            | [] => Access (Some dir) false []
            | lines =>
                Access (Some dir) true
                  (first_occurrences
                     (map (fun line => hd EmptyString (Js.split Js.colon line)) lines))
            end
        end
      else Access None false []
  end.

End Repo.

(** * The label script

    [createOrUpdateLabel] and [main] of [scripts/update-workstream-labels.js].
    Every [execSync] call changes the world outside (a label created by one
    command is there for the next), so the child process is a function from
    the state of the world and the command line to the next state and the
    outcome; the run records the command lines it executes and the lines
    the script itself logs. *)

Module Labels.

Definition ORG : string := "Agaile-com".

Definition REPO : string := "AIQ".

Record label : Type := Label {
  name : string;
  color : string;
  description : string
}.

Definition WORKSTREAM_LABELS : list label :=
  [ Label "workstream-data-access" "0366d6" "Standardize database access patterns";
    Label "workstream-mock-replacement" "6f42c1"
          "Replace mock data with real Supabase DB integration";
    Label "workstream-repository-pattern" "1d76db"
          "Implement repository pattern across modules";
    Label "workstream-auth" "5319e7"
          "Authentication and permission system improvements";
    Label "workstream-navigation" "d4c5f9"
          "Consolidate navigation and role-based access";
    Label "workstream-type-centralization" "f9c513"
          "Centralize TypeScript types and improve type safety";
    Label "workstream-ui" "fbca04"
          "UI component improvements and standardization" ].

Definition PRIORITY_LABELS : list label :=
  [ Label "priority:high" "b60205" "High priority task";
    Label "priority:medium" "ffcc00" "Medium priority task";
    Label "priority:low" "c5def5" "Low priority task" ].

Definition ALL_LABELS : list label := WORKSTREAM_LABELS ++ PRIORITY_LABELS.

Definition quote : string := String "034"%char EmptyString.

Definition get_command (l : label) : string :=
  ("gh label get " ++ name l ++ " -R " ++ ORG ++ "/" ++ REPO)%string.

Definition edit_command (l : label) : string :=
  ("gh label edit " ++ name l ++ " -R " ++ ORG ++ "/" ++ REPO
   ++ " --description " ++ quote ++ description l ++ quote
   ++ " --color " ++ color l)%string.

Definition create_command (l : label) : string :=
  ("gh label create " ++ name l ++ " -R " ++ ORG ++ "/" ++ REPO
   ++ " --description " ++ quote ++ description l ++ quote
   ++ " --color " ++ color l)%string.

Definition version_command : string := "gh --version".

(** The text of the final [console.log]. *)
Definition SUMMARY : string :=
  (Js.nl ++ "Label update complete. The following labels have been created/updated:"
   ++ Js.nl ++ Js.nl
   ++ "Work Stream Labels:" ++ Js.nl
   ++ Js.join Js.nl
        (map (fun l => "- " ++ name l ++ ": " ++ description l) WORKSTREAM_LABELS)
   ++ Js.nl ++ Js.nl
   ++ "Priority Labels:" ++ Js.nl
   ++ Js.join Js.nl
        (map (fun l => "- " ++ name l ++ ": " ++ description l) PRIORITY_LABELS)
   ++ Js.nl ++ Js.nl
   ++ "For full functionality including issue migration and configuration updates, "
   ++ Js.nl
   ++ "please run the script locally.")%string.

(** The command lines one call of [createOrUpdateLabel] can execute. *)
Definition label_chunks (l : label) : list (list string) :=
  [ [get_command l; edit_command l];
    [get_command l; create_command l];
    [get_command l; edit_command l; create_command l] ].

Section Run.

Variable World : Type.

Variable exec : World -> string -> World * outcome unit.

(** The state of a run: the world outside, the command lines executed so
    far, the lines the script itself has written with [console.log], and the
    lines it has written with [console.error].  The edit and create commands
    run with [stdio: 'inherit']: what those children print goes to the same
    terminal and is not recorded here. *)
Record state : Type := State {
  world : World;
  commands : list string;
  logged : list string;
  logged_errors : list string
}.

(** [execSync(command)]: the command runs, the world changes, and the call
    returns or throws. *)
Definition run_command (st : state) (command : string) : state * outcome unit :=
  let (w, r) := exec (world st) command in
  (State w (commands st ++ [command]) (logged st) (logged_errors st), r).

(** [console.log(line)] *)
Definition log (st : state) (line : string) : state :=
  State (world st) (commands st) (logged st ++ [line]) (logged_errors st).

(** [console.error(line)] *)
Definition log_error (st : state) (line : string) : state :=
  State (world st) (commands st) (logged st) (logged_errors st ++ [line]).

(** The inner [catch] block, and the outer [catch] around it. *)
Definition create_label (st : state) (l : label) : state :=
  let st := log st ("Creating new label: " ++ name l)%string in
  let (st, r) := run_command st (create_command l) in
  match r with
  | Returned _ => st
  | Thrown message =>
      log_error st ("Error with label " ++ name l ++ ": " ++ message)%string
  end.

Definition createOrUpdateLabel (st : state) (l : label) : state :=
  let (st, r) := run_command st (get_command l) in
  match r with
  | Returned _ =>
      let st := log st ("Updating label: " ++ name l)%string in
      let (st, r) := run_command st (edit_command l) in
      match r with
      | Returned _ => st
      | Thrown _ => create_label st l
      end
  | Thrown _ => create_label st l
  end.

(** The exit status and the final state of a run started in world [w]. *)
Definition main (w : World) : nat * state :=
  let st := State w [] ["Checking GitHub CLI availability..."] [] in
  let (st, r) := run_command st version_command in
  match r with
  | Thrown _ =>
      (1, log_error st "GitHub CLI (gh) not found. Please install and authenticate.")
  | Returned _ =>
      let st := log st "Starting label update process..." in
      let st := fold_left createOrUpdateLabel ALL_LABELS st in
      (0, log st SUMMARY)
  end.

End Run.

End Labels.

(** * The data-access script

    [findDirectSchemaAccess] and [main] of
    [scripts/implement-data-access-pattern.js].

    The regular expression of line 255 is run by a backtracking matcher for
    the constructs it uses, with the priorities of the language: a greedy
    [+] tries the longest run first, the lazy [.*?] the shortest, and an
    unanchored match tries the start positions from left to right.  On the
    UTF-8 bytes the matcher finds the same captures as on UTF-16 code units:
    every literal and every delimiter of the expression is ASCII, and [.]
    refuses the bytes of the four line terminators.

    The object [results[schema]] is a plain object: a table name that is a
    property of [Object.prototype] is found there, is not an array, and the
    call of [push] throws; and [Object.entries] lists the keys that are
    array indices first, in ascending order. *)

Module DataAccess.

Definition SCHEMAS : list string :=
  [ "auth"; "public"; "assessment"; "item"; "results"; "admin"; "organization" ].

Inductive atom : Type :=
| Lit (s : string)
| One (cls : ascii -> bool)
| CapturePlus (cls : ascii -> bool)
| LazyDots.

Fixpoint strip_prefix (l s : string) : option string :=
  match l with
  | EmptyString => Some s
  | String a l' =>
      match s with
      | String b s' => if Ascii.eqb a b then strip_prefix l' s' else None
      | EmptyString => None
      end
  end.

(** Whether [.] matches the first code unit of [s]: not LF, CR, U+2028 or
    U+2029. *)
Definition dot_here (s : string) : bool :=
  match s with
  | EmptyString => false
  | String c s' =>
      if (Ascii.eqb c "010" || Ascii.eqb c "013")%bool then false
      else if Ascii.eqb c "226"
           then negb (prefix (String "128" (String "168" EmptyString)) s'
                      || prefix (String "128" (String "169" EmptyString)) s')
           else true
  end.

(** [(cls+)] followed by [k]: the longest run first. *)
Fixpoint greedy_plus (cls : ascii -> bool) (k : string -> option (list string))
  (s : string) : option (string * list string) :=
  match s with
  | EmptyString => None
  | String c s' =>
      if cls c then
        match greedy_plus cls k s' with
        | Some (cap, caps) => Some (String c cap, caps)
        | None =>
            match k s' with
            | Some caps => Some (String c EmptyString, caps)
            | None => None
            end
        end
      else None
  end.

(** [.*?] followed by [k]: the shortest run first. *)
Fixpoint lazy_dots (k : string -> option (list string)) (s : string)
  : option (list string) :=
  match k s with
  | Some caps => Some caps
  | None =>
      match s with
      | EmptyString => None
      | String _ s' => if dot_here s then lazy_dots k s' else None
      end
  end.

(** The captures of a match of [atoms] that starts at the head of [s]. *)
Fixpoint match_here (atoms : list atom) (s : string) : option (list string) :=
  match atoms with
  | [] => Some []
  | Lit l :: rest =>
      match strip_prefix l s with
      | Some s' => match_here rest s'
      | None => None
      end
  | One cls :: rest =>
      match s with
      | String c s' => if cls c then match_here rest s' else None
      | EmptyString => None
      end
  | CapturePlus cls :: rest =>
      match greedy_plus cls (match_here rest) s with
      | Some (cap, caps) => Some (cap :: caps)
      | None => None
      end
  | LazyDots :: rest => lazy_dots (match_here rest) s
  end.

(** [s.match(re)] without the [g] flag: the leftmost start that matches. *)
Fixpoint search_re (atoms : list atom) (s : string) : option (list string) :=
  match match_here atoms s with
  | Some caps => Some caps
  | None =>
      match s with
      | EmptyString => None
      | String _ s' => search_re atoms s'
      end
  end.

Definition is_not (chars : list ascii) (c : ascii) : bool :=
  negb (existsb (Ascii.eqb c) chars).

Definition is_one_of (chars : list ascii) (c : ascii) : bool :=
  existsb (Ascii.eqb c) chars.

Definition apostrophe : ascii := "039"%char.

Definition dquote : ascii := "034"%char.

(** [/([^:]+):.*?from\(['"]([^.']+)\.([^'")]+)/] *)
Definition ACCESS_RE : list atom :=
  [ CapturePlus (is_not [":"%char]);
    Lit ":";
    LazyDots;
    Lit "from(";
    One (is_one_of [apostrophe; dquote]);
    CapturePlus (is_not ["."%char; apostrophe]);
    Lit ".";
    CapturePlus (is_not [apostrophe; dquote; ")"%char]) ].

(** The file path and the table a line is recorded under: the first and the
    third capture (the second, [matchedSchema], is not used). *)
Definition line_access (line : string) : option (string * string) :=
  match search_re ACCESS_RE line with
  | Some [filepath; matchedSchema; table] => Some (filepath, table)
  | _ => None
  end.

(** The own properties of [results[schema]], in insertion order. *)
Definition tables_t : Type := list (string * list string).

(** The properties of [Object.prototype]. *)
Definition INHERITED : list string :=
  [ "constructor"; "__defineGetter__"; "__defineSetter__"; "hasOwnProperty";
    "__lookupGetter__"; "__lookupSetter__"; "isPrototypeOf";
    "propertyIsEnumerable"; "toString"; "valueOf"; "__proto__";
    "toLocaleString" ].

Definition get_own (table : string) (tables : tables_t) : option (list string) :=
  option_map snd (find (fun kv => fst kv =? table)%string tables).

(** [results[schema][table].push(filepath)] on an own property. *)
Fixpoint push_file (table filepath : string) (tables : tables_t) : tables_t :=
  match tables with
  | [] => []
  | (k, fs) :: rest =>
      if (k =? table)%string then (k, fs ++ [filepath]) :: rest
      else (k, fs) :: push_file table filepath rest
  end.

(** The message of the [TypeError] of a call of [push] on a value that has
    no such method. *)
Definition PUSH_ERROR : string :=
  "results[schema][table].push is not a function".

(** Lines 259-264 for one recorded access. *)
Definition record_access (tables : tables_t) (filepath table : string)
  : outcome tables_t :=
  match get_own table tables with
  | Some _ => Returned (push_file table filepath tables)
  | None =>
      if existsb (String.eqb table) INHERITED then Thrown PUSH_ERROR
      else Returned (tables ++ [(table, [filepath])])
  end.

(** One iteration of [lines.forEach]. *)
Definition record_line (tables : tables_t) (line : string) : outcome tables_t :=
  match line_access line with
  | Some (filepath, table) => record_access tables filepath table
  | None => Returned tables
  end.

(** [lines.forEach], left by the first error thrown; the object keeps what
    was recorded before. *)
Fixpoint record_lines (tables : tables_t) (lines : list string)
  : tables_t * option string :=
  match lines with
  | [] => (tables, None)
  | line :: rest =>
      match record_line tables line with
      | Returned tables' => record_lines tables' rest
      | Thrown message => (tables, Some message)
      end
  end.

Definition results_t : Type := list (string * tables_t).

(** [results[schema] = value]: an existing key keeps its place. *)
Fixpoint assign (key : string) (value : tables_t) (results : results_t) : results_t :=
  match results with
  | [] => [(key, value)]
  | (k, v) :: rest =>
      if (k =? key)%string then (k, value) :: rest
      else (k, v) :: assign key value rest
  end.

Record environment : Type := Env {
  search : string -> exec_result;
  report_path : outcome string;
  write_file : string -> string -> outcome unit
}.

(** One iteration of [SCHEMAS.forEach]. *)
Definition scan_schema (env : environment) (results : results_t) (schema : string)
  : results_t :=
  match search env schema with
  | ExecError _ _ => results
  | Stdout output =>
      match output_lines output with
      | [] => results
      | lines => assign schema (fst (record_lines [] lines)) results
      end
  end.

Definition findDirectSchemaAccess (env : environment) : results_t :=
  fold_left (scan_schema env) SCHEMAS [].

(** What the [catch] of one iteration writes with [console.error]. *)
Definition schema_errors (env : environment) (schema : string) : list string :=
  let line message :=
    ("Error searching for " ++ schema ++ " schema: " ++ message)%string in
  match search env schema with
  | ExecError (Some 1) _ => []
  | ExecError _ message => [line message]
  | Stdout output =>
      match snd (record_lines [] (output_lines output)) with
      | Some message => [line message]
      | None => []
      end
  end.

(** The keys that are array indices: canonical decimal numerals up to
    [2^32 - 2]. *)
Definition digit_value (c : ascii) : option N :=
  let n := N_of_ascii c in
  if (N.leb 48 n && N.leb n 57)%bool then Some (N.sub n 48) else None.

Fixpoint digits_value (acc : N) (s : string) : option N :=
  match s with
  | EmptyString => Some acc
  | String c s' =>
      match digit_value c with
      | Some d => digits_value (N.add (N.mul acc 10) d) s'
      | None => None
      end
  end.

Definition array_index (key : string) : option N :=
  match key with
  | EmptyString => None
  | String c rest =>
      if Ascii.eqb c "0" then
        match rest with EmptyString => Some 0%N | String _ _ => None end
      else
        match digits_value 0%N key with
        | Some n => if N.leb n 4294967294 then Some n else None
        | None => None
        end
  end.

Fixpoint insert_index (n : N) (kv : string * list string)
  (sorted : list (N * (string * list string))) : list (N * (string * list string)) :=
  match sorted with
  | [] => [(n, kv)]
  | (m, kv') :: rest =>
      if N.leb n m then (n, kv) :: sorted else (m, kv') :: insert_index n kv rest
  end.

(** [Object.entries(tables)] *)
Definition entries (tables : tables_t) : tables_t :=
  map snd
    (fold_right (fun kv sorted =>
                   match array_index (fst kv) with
                   | Some n => insert_index n kv sorted
                   | None => sorted
                   end) [] tables)
  ++ filter (fun kv => match array_index (fst kv) with
                       | Some _ => false
                       | None => true
                       end) tables.

Definition REPORT_HEADER : string :=
"# Workstream Data Access Report

## Overview

This report identifies direct schema-prefixed table access patterns in the codebase
that need to be refactored to use the new function-based approach.

## Schema-Prefixed Table Access

".

Definition REPORT_FOOTER : string :=
"## Implementation Recommendation

For complete implementation details, please run the full script locally:
```bash
node scripts/implement-data-access-pattern.js
```

This script will:
1. Create the `safeTableAccess` utility
2. Generate module-specific database access functions
3. Create the `DatabaseStatus` component
4. Produce a full report with implementation details
".

(** The text appended for one table (lines 309-316). *)
Definition table_text (kv : string * list string) : string :=
  ("#### " ++ fst kv ++ " Table" ++ Js.nl ++ Js.nl
   ++ "Files with direct access:" ++ Js.nl ++ Js.nl
   ++ cat_all (map (fun file => "- `" ++ file ++ "`" ++ Js.nl) (snd kv))
   ++ Js.nl)%string.

(** The text appended for one schema (lines 305-318). *)
Definition schema_text (kv : string * tables_t) : string :=
  ("### " ++ fst kv ++ " Schema" ++ Js.nl ++ Js.nl
   ++ cat_all (map table_text (entries (snd kv))))%string.

Definition render (results : results_t) : string :=
  (fold_left (fun reportContent kv => reportContent ++ schema_text kv)
             results REPORT_HEADER
   ++ REPORT_FOOTER)%string.

Definition main (env : environment) : run :=
  let directAccessResults := findDirectSchemaAccess env in
  let out :=
    "Analyzing codebase for direct schema-prefixed table access..."
    :: map (fun schema =>
              ("Searching for direct access to " ++ schema ++ " schema tables...")%string)
           SCHEMAS in
  let err := flat_map (schema_errors env) SCHEMAS in
  match report_path env with
  | Thrown error =>
      Run 1 None out (err ++ [("Error in main process: " ++ error)%string])
  | Returned reportPath =>
      let reportContent := render directAccessResults in
      match write_file env reportPath reportContent with
      | Thrown error =>
          Run 1 None out (err ++ [("Error in main process: " ++ error)%string])
      | Returned _ =>
          Run 0 (Some (reportPath, reportContent))
              (out ++ [ ("Generated summary report at " ++ reportPath)%string;
                        "This is a simplified version of the script. For full functionality, please run locally." ])
              err
      end
  end.

(** The accesses of a list of lines, and the files recorded under one table
    name, in line order. *)
Definition accesses (lines : list string) : list (string * string) :=
  flat_map (fun line => match line_access line with
                        | Some a => [a]
                        | None => []
                        end) lines.

Definition files_of (table : string) (accs : list (string * string)) : list string :=
  map fst (filter (fun a => snd a =? table)%string accs).

(** Lines 259-264 for a table name that is not found on the prototype. *)
Definition store_access (tables : tables_t) (a : string * string) : tables_t :=
  match get_own (snd a) tables with
  | Some _ => push_file (snd a) (fst a) tables
  | None => tables ++ [(snd a, [fst a])]
  end.

(** One entry per table in first-seen order, with the files of its accesses
    in line order. *)
Definition tables_of (accs : list (string * string)) : tables_t :=
  map (fun table => (table, files_of table accs))
      (first_occurrences (map snd accs)).

Definition inherited (table : string) : bool :=
  existsb (String.eqb table) INHERITED.

(** The lines one search yields: none when it throws. *)
Definition schema_lines (env : environment) (schema : string) : list string :=
  match search env schema with
  | Stdout output => output_lines output
  | ExecError _ _ => []
  end.

(** Every character of [s] satisfies [cls]. *)
Definition every (cls : ascii -> bool) (s : string) : bool :=
  forallb cls (list_ascii_of_string s).

(** [s] is empty or starts with a character outside [cls]. *)
Definition stops (cls : ascii -> bool) (s : string) : bool :=
  match s with
  | EmptyString => true
  | String c _ => negb (cls c)
  end.

End DataAccess.

(** ** Inputs used in the examples *)

Definition order_tree : list (string * list string) :=
  [ ("./src/a.ts", ["mock y"]); ("./src/b.ts", ["fake x"; "mock z"]) ].

Definition SWAPPED_PATTERNS : list string :=
  [ "fake"; "mock"; "dummy"; "placeholder"; "sample data"; "test data";
    "staticData"; "mockData"; "MOCK_" ].

Definition loader_path : string := "./src/assessment/loader.ts".

Definition loader_line : string := "const mockData = load();".

Definition loader_tree : list (string * list string) :=
  [ (loader_path, [loader_line]) ].

(** The loader file with an import above the loader line. *)
Definition import_line : string := "import { mockLoad } from './loaders';".

Definition import_loader_tree : list (string * list string) :=
  [ (loader_path, [import_line; loader_line]) ].

(** An environment over a file tree, in which the report can be written. *)
Definition env_of_tree (tree : list (string * list string)) : environment :=
  Env (grep_tree tree)
      (Returned "/repo/workstream-mock-replacement-report.md")
      (fun _ _ => Returned tt).

Definition repo_demo_env : Repo.environment :=
  Repo.Env (fun m => Returned ("/repo/src/modules/" ++ m)%string)
           (fun dir => (dir =? "/repo/src/modules/auth")%string)
           (fun _ => Stdout "/repo/src/modules/auth/a.ts:import x from 'y'
/repo/src/modules/auth/a.ts:supabase.auth
/repo/src/modules/auth/b.ts:supabase.from('users')
")
           (Returned "/repo/workstream-repository-pattern-report.md")
           (fun _ _ => Returned tt).

(** A child process in which every label exists, editing fails and creating
    succeeds; the world is the number of commands run so far. *)
Definition gh_edit_fails (w : nat) (command : string) : nat * outcome unit :=
  (S w, if prefix "gh label edit " command
        then Thrown "HTTP 403" else Returned tt).

(** A machine without the GitHub CLI. *)
Definition gh_missing (w : nat) (command : string) : nat * outcome unit :=
  (S w, Thrown "Command failed: gh: not found").

(** A search that prints, for the schema [auth], two accesses to [users]
    from one file and no line for any other schema. *)
Definition access_demo_env : DataAccess.environment :=
  DataAccess.Env
    (fun schema =>
       if (schema =? "auth")%string
       then Stdout "./src/a.ts:  db.from('auth.users').select()
./src/a.ts:  db.from('auth.users').insert(row)
./src/b.ts:  db.from('auth.sessions')
"
       else ExecError (Some 1) "Command failed")
    (Returned "/repo/workstream-data-access-report.md")
    (fun _ _ => Returned tt).

(** * Properties *)

(** The patterns [mock] and [MOCK_] both report the one line of the file; it
    is stored once. *)
Example same_line_two_patterns :
  findMockUsage (grep_tree [ ("./src/a.ts", ["const MOCK_mock = 1;"]) ])
  = [Entry "./src/a.ts" ["const MOCK_mock = 1;"]].
Proof. reflexivity. Qed.

Example scan_demo :
  findMockUsage
    (grep_tree [ ("./src/a.ts", ["const mockData = 1;"; "x: fake"]);
                 ("./src/latest/b.ts", ["mock"]) ])
  = [Entry "./src/a.ts" ["const mockData = 1;"; "x: fake"]].
Proof. reflexivity. Qed.

(** ** Strings *)

Lemma prefix_iff (a s : string) :
  prefix a s = true <-> exists b, s = (a ++ b)%string.
Proof.
  revert s; induction a as [|c a IH]; intros s; simpl.
  - destruct s; simpl; split; eauto.
  - destruct s as [|d s]; simpl.
    + split; [discriminate | intros [b Hb]; discriminate].
    + destruct (ascii_dec c d) as [->|Hcd].
      * rewrite IH. split; intros [b Hb]; exists b; congruence.
      * split; [discriminate | intros [b Hb]; congruence].
Qed.

(** [includes] is the substring test: [sub] occurs somewhere in [s]. *)
Lemma includes_iff (s sub : string) :
  Js.includes s sub = true <-> exists a b, s = (a ++ sub ++ b)%string.
Proof.
  induction s as [|c s IH]; cbn [Js.includes].
  - destruct (prefix sub EmptyString) eqn:Hp.
    + apply prefix_iff in Hp as [b Hb]. split; auto. intros _.
      exists EmptyString, b. exact Hb.
    + split; [discriminate|]. intros (a & b & Hab).
      destruct a; [|discriminate]. simpl in Hab.
      assert (prefix sub EmptyString = true) by (apply prefix_iff; eauto).
      congruence.
  - destruct (prefix sub (String c s)) eqn:Hp.
    + apply prefix_iff in Hp as [b Hb]. split; auto. intros _.
      exists EmptyString, b. exact Hb.
    + rewrite IH. split.
      * intros (a & b & ->). exists (String c a), b. reflexivity.
      * intros (a & b & Hab). destruct a as [|d a]; simpl in Hab.
        -- assert (prefix sub (String c s) = true) by (apply prefix_iff; eauto).
           congruence.
        -- injection Hab as _ ->. eauto.
Qed.

Lemma string_app_assoc (a b c : string) :
  ((a ++ b) ++ c)%string = (a ++ b ++ c)%string.
Proof. induction a as [|x a IH]; simpl; congruence. Qed.

Lemma string_app_nil_r (a : string) : (a ++ EmptyString)%string = a.
Proof. induction a as [|x a IH]; simpl; congruence. Qed.

Lemma string_length_app (a b : string) :
  String.length (a ++ b) = String.length a + String.length b.
Proof. induction a as [|x a IH]; simpl; congruence. Qed.

Lemma existsb_eqb_In (c : string) (l : list string) :
  existsb (fun m => m =? c)%string l = true <-> In c l.
Proof.
  rewrite existsb_exists. split.
  - intros (x & Hx & E). apply String.eqb_eq in E. congruence.
  - intros H. exists c. split; auto. apply String.eqb_refl.
Qed.

(** ** First occurrences *)

Lemma In_first_occurrences (x : string) (l : list string) :
  In x (first_occurrences l) <-> In x l.
Proof.
  induction l as [|y l IH]; simpl; [tauto|].
  rewrite filter_In, IH, negb_true_iff, String.eqb_neq.
  destruct (string_dec y x); intuition congruence.
Qed.

Lemma NoDup_filter {A} (p : A -> bool) (l : list A) :
  NoDup l -> NoDup (filter p l).
Proof.
  induction 1 as [|x l Hx Hl IH]; simpl; [constructor|].
  destruct (p x); auto. constructor; auto.
  rewrite filter_In. tauto.
Qed.

Lemma NoDup_first_occurrences (l : list string) : NoDup (first_occurrences l).
Proof.
  induction l as [|x l IH]; simpl; constructor.
  - rewrite filter_In, String.eqb_refl. simpl. intros [_ H]. discriminate.
  - apply NoDup_filter, IH.
Qed.

Lemma first_occurrences_snoc (l : list string) (x : string) :
  first_occurrences (l ++ [x]) =
  first_occurrences l
  ++ (if existsb (fun y => y =? x)%string l then [] else [x]).
Proof.
  induction l as [|y l IH]; simpl; auto.
  rewrite IH, filter_app. do 2 f_equal.
  rewrite (String.eqb_sym y x).
  destruct (existsb (fun y0 => y0 =? x)%string l); simpl.
  - rewrite orb_true_r. reflexivity.
  - rewrite orb_false_r. destruct (x =? y)%string; reflexivity.
Qed.

Lemma existsb_first_occurrences (x : string) (l : list string) :
  existsb (fun y => y =? x)%string (first_occurrences l)
  = existsb (fun y => y =? x)%string l.
Proof.
  apply eq_iff_eq_true. rewrite !existsb_eqb_In. apply In_first_occurrences.
Qed.

(** ** The loop body against the grouping by file *)

Lemma contexts_of_snoc (fp : string) (l : list RawMatch) (m : RawMatch) :
  contexts_of fp (l ++ [m]) =
  if (filePath m =? fp)%string
  then contexts_of fp l
       ++ (if existsb (fun y => y =? lineContext m)%string (contexts_of fp l)
           then [] else [lineContext m])
  else contexts_of fp l.
Proof.
  unfold contexts_of. rewrite filter_app. simpl.
  destruct (filePath m =? fp)%string.
  - rewrite map_app. simpl. rewrite first_occurrences_snoc.
    rewrite existsb_first_occurrences. reflexivity.
  - rewrite app_nil_r. reflexivity.
Qed.

Lemma contexts_of_absent (fp : string) (l : list RawMatch) :
  ~ In fp (map filePath l) -> contexts_of fp l = [].
Proof.
  intros H. unfold contexts_of.
  replace (filter (fun m => filePath m =? fp)%string l) with (@nil RawMatch); auto.
  symmetry. induction l as [|m l IH]; simpl in *; auto.
  destruct (filePath m =? fp)%string eqn:E.
  - apply String.eqb_eq in E. tauto.
  - apply IH. tauto.
Qed.

Lemma find_entry_map (g : string -> list string) (fp : string) (fs : list string) :
  find_entry fp (map (fun k => Entry k (g k)) fs) =
  if existsb (fun y => y =? fp)%string fs then Some (Entry fp (g fp)) else None.
Proof.
  unfold find_entry. induction fs as [|k fs IH]; simpl; auto.
  destruct (k =? fp)%string eqn:E; simpl; auto.
  apply String.eqb_eq in E. subst. reflexivity.
Qed.

Lemma push_match_map (g : string -> list string) (fp c : string) (fs : list string) :
  NoDup fs ->
  push_match fp c (map (fun k => Entry k (g k)) fs) =
  map (fun k => Entry k (if (fp =? k)%string then g k ++ [c] else g k)) fs.
Proof.
  induction 1 as [|k fs Hk Hfs IH]; simpl; auto.
  rewrite (String.eqb_sym fp k).
  destruct (k =? fp)%string eqn:E; [|rewrite IH; reflexivity].
  f_equal. apply String.eqb_eq in E. subst k.
  apply map_ext_in. intros k Hin.
  destruct (fp =? k)%string eqn:E; auto.
  apply String.eqb_eq in E. congruence.
Qed.

Lemma group_by_file_snoc (l : list RawMatch) (m : RawMatch) :
  group_by_file (l ++ [m])
  = store_match (group_by_file l) (filePath m) (lineContext m).
Proof.
  unfold group_by_file, store_match.
  rewrite find_entry_map, map_app. simpl.
  rewrite first_occurrences_snoc, existsb_first_occurrences, map_app.
  destruct (existsb (fun y => y =? filePath m)%string (map filePath l)) eqn:Hseen;
    cbn [matches map app].
  - rewrite app_nil_r.
    destruct (existsb (fun y => y =? lineContext m)%string
                (contexts_of (filePath m) l)) eqn:Hdup.
    + apply map_ext. intros k. rewrite contexts_of_snoc.
      destruct (filePath m =? k)%string eqn:E; auto.
      apply String.eqb_eq in E. subst k. rewrite Hdup, app_nil_r. reflexivity.
    + rewrite push_match_map by apply NoDup_first_occurrences.
      apply map_ext. intros k. rewrite contexts_of_snoc.
      destruct (filePath m =? k)%string eqn:E; auto.
      apply String.eqb_eq in E. subst k. rewrite Hdup. reflexivity.
  - assert (Hnot : ~ In (filePath m) (map filePath l)).
    { intros Hin. apply existsb_eqb_In in Hin. congruence. }
    f_equal.
    + apply map_ext_in. intros k Hk. rewrite contexts_of_snoc.
      destruct (filePath m =? k)%string eqn:E; auto.
      apply String.eqb_eq in E. subst k.
      exfalso. apply Hnot. apply In_first_occurrences. exact Hk.
    + rewrite contexts_of_snoc, String.eqb_refl.
      rewrite (contexts_of_absent _ _ Hnot). reflexivity.
Qed.

Lemma fold_store_group_by_file (l : list RawMatch) :
  fold_left (fun acc m => store_match acc (filePath m) (lineContext m)) l []
  = group_by_file l.
Proof.
  induction l as [|m l IH] using rev_ind; [reflexivity|].
  rewrite fold_left_app. simpl. rewrite IH. symmetry. apply group_by_file_snoc.
Qed.

Lemma fold_record_kept (preds : list (RawMatch -> bool)) (ms : list RawMatch)
  (acc : list entry) :
  fold_left (record_match_under preds) ms acc
  = fold_left (fun acc m => store_match acc (filePath m) (lineContext m))
              (kept preds ms) acc.
Proof.
  revert acc. induction ms as [|m ms IH]; intros acc; simpl; auto.
  rewrite IH. unfold record_match_under.
  destruct (excluded preds m); reflexivity.
Qed.

(** The loop computes the grouping the design document describes. *)
Lemma aggregate_refines_spec (preds : list (RawMatch -> bool)) (ms : list RawMatch) :
  aggregate preds ms = aggregate_spec preds ms.
Proof.
  unfold aggregate, aggregate_spec.
  rewrite fold_record_kept. apply fold_store_group_by_file.
Qed.

Lemma record_match_exclusions (results : list entry) (m : RawMatch) :
  record_match results m = record_match_under EXCLUSIONS results m.
Proof.
  unfold record_match, record_match_under, excluded, EXCLUSIONS. simpl.
  destruct (is_test_file m), (in_node_modules m), (is_real_data m); reflexivity.
Qed.

Lemma fold_left_ext {A B} (f g : A -> B -> A) (l : list B) (a : A) :
  (forall x y, f x y = g x y) -> fold_left f l a = fold_left g l a.
Proof.
  intros H. revert a. induction l as [|y l IH]; intros a; simpl; auto.
  rewrite H. apply IH.
Qed.

Lemma fold_left_map {A B C} (f : A -> C -> A) (h : B -> C) (l : list B) (a : A) :
  fold_left f (map h l) a = fold_left (fun acc x => f acc (h x)) l a.
Proof.
  revert a. induction l as [|y l IH]; intros a; simpl; auto.
Qed.

(** The nested loops of [findMockUsage] are the aggregation of the raw
    matches of the run. *)
Lemma findMockUsage_with_aggregate (grep : string -> exec_result)
  (patterns : list string) :
  findMockUsage_with grep patterns
  = aggregate EXCLUSIONS (raw_matches grep patterns).
Proof.
  unfold findMockUsage_with, aggregate.
  generalize (@nil entry) as acc.
  induction patterns as [|pat patterns IH]; intros acc; simpl; auto.
  rewrite fold_left_app, IH. f_equal.
  unfold scan_pattern. destruct (grep pat) as [output|status message]; simpl; auto.
  rewrite fold_left_map. apply fold_left_ext.
  intros. apply record_match_exclusions.
Qed.

Lemma findMockUsage_grouping (grep : string -> exec_result) (patterns : list string) :
  findMockUsage_with grep patterns
  = group_by_file (kept EXCLUSIONS (raw_matches grep patterns)).
Proof.
  rewrite findMockUsage_with_aggregate. apply aggregate_refines_spec.
Qed.

Lemma aggregate_matches_exclusions (ms : list RawMatch) :
  aggregate_matches ms = aggregate EXCLUSIONS ms.
Proof.
  unfold aggregate_matches, aggregate. apply fold_left_ext.
  apply record_match_exclusions.
Qed.

Lemma aggregate_matches_grouping (ms : list RawMatch) :
  aggregate_matches ms = group_by_file (kept EXCLUSIONS ms).
Proof.
  rewrite aggregate_matches_exclusions. apply aggregate_refines_spec.
Qed.

Lemma findMockUsage_aggregate_matches (grep : string -> exec_result) :
  findMockUsage grep = aggregate_matches (raw_matches grep MOCK_PATTERNS).
Proof.
  unfold findMockUsage.
  rewrite findMockUsage_with_aggregate, aggregate_matches_exclusions.
  reflexivity.
Qed.

(** ** Groups of a grouping *)

Lemma group_paths (l : list RawMatch) :
  map filepath (group_by_file l) = first_occurrences (map filePath l).
Proof.
  unfold group_by_file. rewrite map_map. simpl. apply map_id.
Qed.

Lemma In_group_by_file (g : entry) (l : list RawMatch) :
  In g (group_by_file l) ->
  In (filepath g) (map filePath l) /\ matches g = contexts_of (filepath g) l.
Proof.
  unfold group_by_file. rewrite in_map_iff. intros (k & <- & Hk).
  rewrite In_first_occurrences in Hk. simpl. auto.
Qed.

Lemma group_contexts_in (fp : string) (l : list RawMatch) :
  contexts_in fp (group_by_file l) = contexts_of fp l.
Proof.
  unfold contexts_in, group_by_file. rewrite find_entry_map.
  rewrite existsb_first_occurrences.
  destruct (existsb (fun y => y =? fp)%string (map filePath l)) eqn:E; auto.
  symmetry. apply contexts_of_absent. intros H.
  apply existsb_eqb_In in H. congruence.
Qed.

Lemma In_contexts_of (c fp : string) (l : list RawMatch) :
  In c (contexts_of fp l) <->
  exists m, In m l /\ filePath m = fp /\ lineContext m = c.
Proof.
  unfold contexts_of. rewrite In_first_occurrences, in_map_iff. split.
  - intros (m & Hc & Hm). apply filter_In in Hm as [Hm E].
    apply String.eqb_eq in E. eauto.
  - intros (m & Hm & Hf & Hc). exists m. split; auto.
    apply filter_In. split; auto. apply String.eqb_eq. exact Hf.
Qed.

Lemma In_kept (preds : list (RawMatch -> bool)) (m : RawMatch) (ms : list RawMatch) :
  In m (kept preds ms) <-> In m ms /\ excluded preds m = false.
Proof.
  unfold kept. rewrite filter_In, negb_true_iff. tauto.
Qed.

Lemma NoDup_map_pair (k : string) (l : list string) :
  NoDup l -> NoDup (map (pair k) l).
Proof.
  induction 1 as [|x l Hx Hl IH]; simpl; constructor; auto.
  rewrite in_map_iff. intros (y & E & Hy). congruence.
Qed.

Lemma NoDup_keyed_pairs (g : string -> list string) (fs : list string) :
  NoDup fs -> (forall k, NoDup (g k)) ->
  NoDup (flat_map (fun k => map (pair k) (g k)) fs).
Proof.
  intros Hfs Hg. induction Hfs as [|k fs Hk Hfs IH]; simpl; [constructor|].
  apply NoDup_app; auto using NoDup_map_pair.
  intros [k' c] H1 H2.
  apply in_map_iff in H1 as (c1 & E1 & _).
  apply in_flat_map in H2 as (k2 & Hk2 & H2).
  apply in_map_iff in H2 as (c2 & E2 & _).
  congruence.
Qed.

Lemma stored_pairs_group (l : list RawMatch) :
  stored_pairs (group_by_file l)
  = flat_map (fun k => map (pair k) (contexts_of k l))
             (first_occurrences (map filePath l)).
Proof.
  unfold stored_pairs, group_by_file.
  induction (first_occurrences (map filePath l)) as [|k fs IH]; simpl; auto.
  rewrite IH. reflexivity.
Qed.

Lemma NoDup_stored_pairs_group (l : list RawMatch) :
  NoDup (stored_pairs (group_by_file l)).
Proof.
  rewrite stored_pairs_group. apply NoDup_keyed_pairs.
  - apply NoDup_first_occurrences.
  - intros k. apply NoDup_first_occurrences.
Qed.

Lemma In_stored_pairs_group (fp c : string) (l : list RawMatch) :
  In (fp, c) (stored_pairs (group_by_file l)) <-> In (fp, c) (map located l).
Proof.
  rewrite stored_pairs_group, in_flat_map, in_map_iff. split.
  - intros (k & Hk & H). apply in_map_iff in H as (c' & E & Hc).
    injection E as -> ->. apply In_contexts_of in Hc as (m & Hm & Hf & Hc).
    exists m. unfold located. split; congruence.
  - intros (m & E & Hm). unfold located in E. injection E as Hf Hc.
    exists fp. split.
    + apply In_first_occurrences, in_map_iff. eauto.
    + apply in_map, In_contexts_of. eauto.
Qed.

Lemma length_stored_pairs (results : list entry) :
  length (stored_pairs results) = total_contexts results.
Proof.
  unfold stored_pairs, total_contexts.
  induction results as [|e results IH]; simpl; auto.
  rewrite length_app, length_map, IH. reflexivity.
Qed.

(** The aggregation reads the file and the line of a raw match, never the
    pattern. *)
Lemma record_match_located (results : list entry) (m : RawMatch) :
  record_match results m
  = record_match results (Raw (fst (located m)) (snd (located m)) EmptyString).
Proof. reflexivity. Qed.

Lemma aggregate_matches_located (ms : list RawMatch) :
  aggregate_matches ms
  = fold_left (fun acc p => record_match acc (Raw (fst p) (snd p) EmptyString))
              (map located ms) [].
Proof.
  unfold aggregate_matches. rewrite fold_left_map.
  apply fold_left_ext. intros. apply record_match_located.
Qed.

Lemma kept_group_exists (preds : list (RawMatch -> bool)) (m : RawMatch)
  (ms : list RawMatch) :
  In m ms -> excluded preds m = false ->
  exists g, In g (group_by_file (kept preds ms)) /\ filepath g = filePath m
            /\ In (lineContext m) (matches g).
Proof.
  intros Hm Hex.
  assert (Hk : In m (kept preds ms)) by (apply In_kept; auto).
  exists (Entry (filePath m) (contexts_of (filePath m) (kept preds ms))).
  simpl. repeat split.
  - unfold group_by_file. apply in_map_iff. exists (filePath m). split; auto.
    apply In_first_occurrences, in_map. exact Hk.
  - apply In_contexts_of. eauto.
Qed.

(** ** Aggregation: deduplicated contexts, one group per file *)

(** C1: in every group the aggregation produces, the stored contexts are
    free of duplicates and are the first occurrences, in order, of the
    contexts of the file's non-excluded raw matches; a non-excluded raw
    match has its context stored exactly once under its file, however many
    raw matches repeat it; and the result does not depend on the patterns
    the raw matches are attributed to. *)
Theorem contexts_deduplicated (ms : list RawMatch) :
  (forall g, In g (aggregate_matches ms) ->
     NoDup (matches g) /\
     matches g =
       first_occurrences
         (map lineContext
            (filter (fun m => filePath m =? filepath g)%string
                    (kept EXCLUSIONS ms)))) /\
  (forall m, In m ms -> excluded EXCLUSIONS m = false ->
     exists g, In g (aggregate_matches ms) /\ filepath g = filePath m /\
               count_occ string_dec (matches g) (lineContext m) = 1) /\
  (forall ms', map located ms' = map located ms ->
     aggregate_matches ms' = aggregate_matches ms).
Proof.
  rewrite aggregate_matches_grouping. repeat split.
  - apply In_group_by_file in H as [_ ->]. apply NoDup_first_occurrences.
  - apply In_group_by_file in H as [_ ->]. reflexivity.
  - intros m Hm Hex.
    destruct (kept_group_exists EXCLUSIONS m ms Hm Hex) as (g & Hg & Hf & Hc).
    exists g. repeat split; auto.
    assert (Hnd : NoDup (matches g)).
    { apply In_group_by_file in Hg as [_ ->]. apply NoDup_first_occurrences. }
    apply (proj1 (NoDup_count_occ' string_dec (matches g)) Hnd). exact Hc.
  - intros ms' E. rewrite <- aggregate_matches_grouping.
    rewrite !aggregate_matches_located, E. reflexivity.
Qed.

(** The scenario of the design document: the patterns [mock] and [MOCK_]
    both report the same line of the same file. *)
Lemma contexts_deduplicated_witness :
  exists g,
    In g (aggregate_matches
            [ Raw "./src/a.ts" "const MOCK_mock = 1;" "mock";
              Raw "./src/a.ts" "const MOCK_mock = 1;" "MOCK_" ]) /\
    filepath g = "./src/a.ts" /\
    count_occ string_dec (matches g) "const MOCK_mock = 1;" = 1.
Proof.
  apply (proj1 (proj2 (contexts_deduplicated
            [ Raw "./src/a.ts" "const MOCK_mock = 1;" "mock";
              Raw "./src/a.ts" "const MOCK_mock = 1;" "MOCK_" ]))
           (Raw "./src/a.ts" "const MOCK_mock = 1;" "MOCK_")).
  - simpl. auto.
  - reflexivity.
Defined.

(** C2: the aggregation never produces two groups with the same file path,
    whether run on an arbitrary sequence of raw matches or inside
    [findMockUsage]; on the empty sequence it produces no group. *)
Theorem one_group_per_file :
  (forall ms, NoDup (map filepath (aggregate_matches ms))) /\
  (forall grep, NoDup (map filepath (findMockUsage grep))) /\
  aggregate_matches [] = [].
Proof.
  assert (H : forall ms, NoDup (map filepath (aggregate_matches ms))).
  { intros ms. rewrite aggregate_matches_grouping, group_paths.
    apply NoDup_first_occurrences. }
  repeat split; auto.
  intros grep. rewrite findMockUsage_aggregate_matches. apply H.
Qed.

(** ** Exclusions *)

Lemma excluded_app (preds extras : list (RawMatch -> bool)) (m : RawMatch) :
  excluded (preds ++ extras) m = excluded preds m || excluded extras m.
Proof. unfold excluded. apply existsb_app. Qed.

Lemma kept_more_exclusions (preds extras : list (RawMatch -> bool))
  (ms : list RawMatch) :
  incl (kept (preds ++ extras) ms) (kept preds ms).
Proof.
  intros m. rewrite !In_kept, excluded_app, orb_false_iff. tauto.
Qed.

Lemma group_paths_incl (l l' : list RawMatch) :
  incl l l' ->
  incl (map filepath (group_by_file l)) (map filepath (group_by_file l')).
Proof.
  intros H fp. rewrite !group_paths, !In_first_occurrences, !in_map_iff.
  intros (m & E & Hm). eauto.
Qed.

Lemma stored_pairs_incl (l l' : list RawMatch) :
  incl l l' ->
  incl (stored_pairs (group_by_file l)) (stored_pairs (group_by_file l')).
Proof.
  intros H [fp c]. rewrite !In_stored_pairs_group, !in_map_iff.
  intros (m & E & Hm). eauto.
Qed.

Lemma contexts_of_incl (fp : string) (l l' : list RawMatch) :
  incl l l' -> incl (contexts_of fp l) (contexts_of fp l').
Proof.
  intros H c. rewrite !In_contexts_of. intros (m & Hm & E). eauto.
Qed.

(** C6: the files of the aggregate output are files of raw matches that no
    exclusion test rejects, and with further exclusion tests added the
    output has a subset of the files, no more groups, no more contexts in
    any file and no more contexts in total.  The tests of the script are
    [EXCLUSIONS]. *)
Theorem exclusions_only_filter (preds extras : list (RawMatch -> bool))
  (ms : list RawMatch) :
  aggregate EXCLUSIONS ms = aggregate_matches ms /\
  (forall fp, In fp (map filepath (aggregate preds ms)) ->
     exists m, In m ms /\ filePath m = fp /\ excluded preds m = false) /\
  incl (map filepath (aggregate (preds ++ extras) ms))
       (map filepath (aggregate preds ms)) /\
  length (aggregate (preds ++ extras) ms) <= length (aggregate preds ms) /\
  (forall fp, length (contexts_in fp (aggregate (preds ++ extras) ms))
              <= length (contexts_in fp (aggregate preds ms))) /\
  total_contexts (aggregate (preds ++ extras) ms)
  <= total_contexts (aggregate preds ms).
Proof.
  rewrite !aggregate_refines_spec. unfold aggregate_spec.
  pose proof (kept_more_exclusions preds extras ms) as Hk.
  repeat split.
  - symmetry. rewrite aggregate_matches_exclusions. apply aggregate_refines_spec.
  - intros fp. rewrite group_paths, In_first_occurrences, in_map_iff.
    intros (m & E & Hm). apply In_kept in Hm as [Hm Hex]. eauto.
  - apply group_paths_incl, Hk.
  - rewrite <- (length_map filepath), <- (length_map filepath (group_by_file (kept preds ms))).
    apply NoDup_incl_length.
    + rewrite group_paths. apply NoDup_first_occurrences.
    + apply group_paths_incl, Hk.
  - intros fp. rewrite !group_contexts_in. apply NoDup_incl_length.
    + apply NoDup_first_occurrences.
    + apply contexts_of_incl, Hk.
  - rewrite <- !length_stored_pairs. apply NoDup_incl_length.
    + apply NoDup_stored_pairs_group.
    + apply stored_pairs_incl, Hk.
Qed.

Lemma exclusions_only_filter_witness :
  exists m,
    In m [ Raw "./src/a.ts" "const mockData = 1;" "mock";
           Raw "./vendor/b.ts" "fake" "fake";
           Raw "./src/a.test.ts" "mock" "mock" ] /\
    filePath m = "./src/a.ts" /\ excluded EXCLUSIONS m = false.
Proof.
  apply (proj1 (proj2 (exclusions_only_filter EXCLUSIONS
           [fun m => Js.includes (filePath m) "vendor"]
           [ Raw "./src/a.ts" "const mockData = 1;" "mock";
             Raw "./vendor/b.ts" "fake" "fake";
             Raw "./src/a.test.ts" "mock" "mock" ]))
           "./src/a.ts").
  vm_compute. auto.
Defined.

Lemma includes_inside (a w b : string) : Js.includes (a ++ w ++ b) w = true.
Proof. apply includes_iff. eauto. Qed.

Lemma includes_longer (s a w b : string) :
  Js.includes s (a ++ w ++ b) = true -> Js.includes s w = true.
Proof.
  rewrite !includes_iff. intros (x & y & ->).
  exists (x ++ a)%string, (b ++ y)%string.
  rewrite !string_app_assoc. reflexivity.
Qed.

Lemma is_test_file_iff (m : RawMatch) :
  is_test_file m = true <->
  exists a b, filePath m = (a ++ "test" ++ b)%string
              \/ filePath m = (a ++ "__tests__" ++ b)%string
              \/ filePath m = (a ++ "spec" ++ b)%string.
Proof.
  unfold is_test_file. rewrite !orb_true_iff, !includes_iff. split.
  - intros [[(a & b & H)|(a & b & H)]|(a & b & H)]; exists a, b; auto.
  - intros (a & b & [H|[H|H]]); eauto.
Qed.

Lemma excluded_never_grouped (m : RawMatch) (ms : list RawMatch) :
  is_test_file m = true ->
  ~ In (filePath m) (map filepath (aggregate_matches ms)).
Proof.
  intros Ht. rewrite aggregate_matches_grouping, group_paths.
  rewrite In_first_occurrences, in_map_iff. intros (m' & E & Hm').
  apply In_kept in Hm' as [_ Hex].
  unfold excluded, EXCLUSIONS in Hex. simpl in Hex.
  apply orb_false_iff in Hex as [Hex _].
  unfold is_test_file in *. rewrite E in Hex. congruence.
Qed.

(** C10: the test-file exclusion is a substring test on the whole path.  A
    raw match whose path contains [test], [__tests__] or [spec] anywhere, and
    so also one whose path contains [latest] or [inspect], leaves [results]
    unchanged, and its file never gets a group, whatever the other raw
    matches are. *)
Theorem test_exclusion_is_bare_substring (m : RawMatch) :
  (exists a w b,
      In w ["test"; "__tests__"; "spec"; "latest"; "inspect"] /\
      filePath m = (a ++ w ++ b)%string) ->
  is_test_file m = true /\
  (forall results, record_match results m = results) /\
  (forall ms, ~ In (filePath m) (map filepath (aggregate_matches ms))).
Proof.
  intros (a & w & b & Hw & Hpath).
  assert (Ht : is_test_file m = true).
  { unfold is_test_file. rewrite Hpath. simpl in Hw.
    destruct Hw as [<-|[<-|[<-|[<-|[<-|[]]]]]].
    - rewrite includes_inside. reflexivity.
    - rewrite (includes_inside a "__tests__" b), ?orb_true_r. reflexivity.
    - rewrite (includes_inside a "spec" b), ?orb_true_r. reflexivity.
    - rewrite (includes_longer _ "la" "test" EmptyString); auto.
      apply includes_inside.
    - rewrite (includes_longer _ "in" "spec" "t"), ?orb_true_r; auto.
      apply includes_inside. }
  repeat split; auto.
  - intros results. unfold record_match. rewrite Ht. reflexivity.
  - intros ms. apply excluded_never_grouped, Ht.
Qed.

Lemma test_exclusion_is_bare_substring_witness :
  record_match [Entry "./src/a.ts" ["mock"]]
               (Raw "./src/feed/latest.ts" "const mockData = 1;" "mock")
  = [Entry "./src/a.ts" ["mock"]].
Proof.
  apply (test_exclusion_is_bare_substring
           (Raw "./src/feed/latest.ts" "const mockData = 1;" "mock")).
  exists "./src/feed/", "latest", ".ts". split.
  - simpl. auto.
  - reflexivity.
Defined.

(** ** Pattern order *)

(** C4, as stated, fails: on a two-file tree, scanning [fake] before [mock]
    instead of after it changes both the order of the groups and the order
    of the contexts within a group. *)
Lemma pattern_order_changes_output :
  Permutation MOCK_PATTERNS SWAPPED_PATTERNS /\
  findMockUsage_with (grep_tree order_tree) MOCK_PATTERNS
  = [ Entry "./src/a.ts" ["mock y"]; Entry "./src/b.ts" ["mock z"; "fake x"] ] /\
  findMockUsage_with (grep_tree order_tree) SWAPPED_PATTERNS
  = [ Entry "./src/b.ts" ["fake x"; "mock z"]; Entry "./src/a.ts" ["mock y"] ] /\
  findMockUsage_with (grep_tree order_tree) SWAPPED_PATTERNS
  <> findMockUsage_with (grep_tree order_tree) MOCK_PATTERNS.
Proof.
  split; [apply perm_swap|].
  split; [reflexivity|]. split; [reflexivity|].
  intros H. vm_compute in H. discriminate H.
Qed.

Lemma In_raw_matches_perm (grep : string -> exec_result)
  (patterns patterns' : list string) (m : RawMatch) :
  Permutation patterns patterns' ->
  In m (raw_matches grep patterns) -> In m (raw_matches grep patterns').
Proof.
  intros HP. unfold raw_matches. rewrite !in_flat_map.
  intros (pat & Hpat & Hm). exists pat. split; auto.
  apply (Permutation_in _ HP). exact Hpat.
Qed.

Lemma group_by_file_same_members (l l' : list RawMatch) :
  incl l l' -> incl l' l ->
  Permutation (map filepath (group_by_file l)) (map filepath (group_by_file l'))
  /\ forall fp, Permutation (contexts_in fp (group_by_file l))
                            (contexts_in fp (group_by_file l')).
Proof.
  intros H1 H2. split.
  - apply NoDup_Permutation.
    + rewrite group_paths. apply NoDup_first_occurrences.
    + rewrite group_paths. apply NoDup_first_occurrences.
    + intros fp. split; apply group_paths_incl; auto.
  - intros fp. rewrite !group_contexts_in. apply NoDup_Permutation.
    + apply NoDup_first_occurrences.
    + apply NoDup_first_occurrences.
    + intros c. split; apply contexts_of_incl; auto.
Qed.

(** C4, amended: permuting the patterns leaves the set of groups and the set
    of contexts of every file unchanged (the lists are permutations of each
    other); their order is the first-seen order of the pattern-by-pattern
    scan. *)
Theorem pattern_order_keeps_contents (grep : string -> exec_result)
  (patterns patterns' : list string) :
  Permutation patterns patterns' ->
  findMockUsage_with grep patterns
  = group_by_file (kept EXCLUSIONS (raw_matches grep patterns)) /\
  Permutation (map filepath (findMockUsage_with grep patterns))
              (map filepath (findMockUsage_with grep patterns')) /\
  (forall fp,
      Permutation (contexts_in fp (findMockUsage_with grep patterns))
                  (contexts_in fp (findMockUsage_with grep patterns'))).
Proof.
  intros HP. split; [apply findMockUsage_grouping|].
  rewrite !findMockUsage_grouping.
  apply group_by_file_same_members; intros m; rewrite !In_kept;
    intros [Hm Hex]; split; auto.
  - apply (In_raw_matches_perm grep patterns patterns' m HP Hm).
  - apply (In_raw_matches_perm grep patterns' patterns m (Permutation_sym HP) Hm).
Qed.

Lemma pattern_order_keeps_contents_witness :
  Permutation
    (map filepath (findMockUsage_with (grep_tree order_tree) MOCK_PATTERNS))
    (map filepath (findMockUsage_with (grep_tree order_tree) SWAPPED_PATTERNS)).
Proof.
  apply (pattern_order_keeps_contents (grep_tree order_tree)
           MOCK_PATTERNS SWAPPED_PATTERNS).
  apply perm_swap.
Defined.

(** ** Classification *)

Lemma module_of_rules (fp : string) : module_of fp = classify_by RULES fp.
Proof.
  unfold module_of, RULES. simpl.
  repeat match goal with
         | |- context [Js.includes fp ?s] =>
             destruct (Js.includes fp s); simpl; try reflexivity
         end.
Qed.

Lemma classify_by_first_match (rules : list (string * string)) (fp : string) :
  (exists earlier sub later,
      rules = earlier ++ (sub, classify_by rules fp) :: later /\
      Js.includes fp sub = true /\
      forall r, In r earlier -> Js.includes fp (fst r) = false)
  \/ (classify_by rules fp = "unknown" /\
      forall r, In r rules -> Js.includes fp (fst r) = false).
Proof.
  induction rules as [|[sub name] rules IH]; simpl.
  - right. split; auto. intros r [].
  - destruct (Js.includes fp sub) eqn:E.
    + left. exists [], sub, rules. simpl. repeat split; auto. intros r [].
    + destruct IH as [(earlier & sub' & later & Hr & Hs & He)|[Hu Hn]].
      * left. exists ((sub, name) :: earlier), sub', later. simpl.
        repeat split; auto; [congruence|].
        intros r [<-|Hr']; auto.
      * right. split; auto. intros r [<-|Hr']; auto.
Qed.

Lemma get_bucket_map (g : string -> list entry) (name : string) (ks : list string) :
  get_bucket name (map (fun k => (k, g k)) ks) =
  if existsb (fun y => y =? name)%string ks then Some (g name) else None.
Proof.
  unfold get_bucket. induction ks as [|k ks IH]; simpl; auto.
  destruct (k =? name)%string eqn:E; simpl; auto.
  apply String.eqb_eq in E. subst. reflexivity.
Qed.

Lemma push_entry_map (g : string -> list entry) (name : string) (e : entry)
  (ks : list string) :
  NoDup ks ->
  push_entry name e (map (fun k => (k, g k)) ks) =
  map (fun k => (k, if (name =? k)%string then g k ++ [e] else g k)) ks.
Proof.
  induction 1 as [|k ks Hk Hks IH]; simpl; auto.
  rewrite (String.eqb_sym name k).
  destruct (k =? name)%string eqn:E; [|rewrite IH; reflexivity].
  f_equal. apply String.eqb_eq in E. subst k.
  apply map_ext_in. intros k Hin.
  destruct (name =? k)%string eqn:E; auto.
  apply String.eqb_eq in E. congruence.
Qed.

Lemma filter_module_absent (name : string) (groups : list entry) :
  ~ In name (map (fun g => module_of (filepath g)) groups) ->
  filter (fun g => module_of (filepath g) =? name)%string groups = [].
Proof.
  induction groups as [|g groups IH]; simpl; auto. intros H.
  destruct (module_of (filepath g) =? name)%string eqn:E.
  - apply String.eqb_eq in E. tauto.
  - apply IH. tauto.
Qed.

Lemma buckets_of_snoc (groups : list entry) (e : entry) :
  buckets_of (groups ++ [e]) = categorize_step (buckets_of groups) e.
Proof.
  unfold categorize_step.
  set (name := module_of (filepath e)).
  set (g := fun k => filter (fun g => module_of (filepath g) =? k)%string groups).
  assert (Hens : ensure_bucket name (buckets_of groups)
                 = map (fun k => (k, g k))
                     (first_occurrences
                        (map (fun g => module_of (filepath g)) (groups ++ [e])))).
  { unfold ensure_bucket, buckets_of. fold g.
    rewrite get_bucket_map, existsb_first_occurrences, map_app. simpl. fold name.
    rewrite first_occurrences_snoc.
    destruct (existsb (fun y => y =? name)%string
                (map (fun g => module_of (filepath g)) groups)) eqn:Hseen.
    - rewrite app_nil_r. reflexivity.
    - rewrite map_app. simpl. do 3 f_equal. unfold g.
      symmetry. apply filter_module_absent. intros Hin.
      apply existsb_eqb_In in Hin. congruence. }
  rewrite Hens, push_entry_map by apply NoDup_first_occurrences.
  unfold buckets_of. apply map_ext. intros k.
  rewrite filter_app. simpl. fold name. unfold g.
  rewrite (String.eqb_sym name k).
  destruct (k =? name)%string; [reflexivity|]. rewrite app_nil_r. reflexivity.
Qed.

(** The loop computes the buckets the design document describes. *)
Lemma categorize_buckets (groups : list entry) :
  categorizeMockUsageByModule groups = buckets_of groups.
Proof.
  unfold categorizeMockUsageByModule.
  induction groups as [|e groups IH] using rev_ind; [reflexivity|].
  rewrite fold_left_app. simpl. rewrite IH. symmetry. apply buckets_of_snoc.
Qed.


Section Partition.

Variable key : entry -> string.

Lemma bucket_cons_other (e : entry) (groups : list entry) (ks : list string) :
  ~ In (key e) ks ->
  flat_map (keyed key (e :: groups)) ks = flat_map (keyed key groups) ks.
Proof.
  induction ks as [|k ks IH]; simpl; auto. intros H.
  rewrite IH by tauto. f_equal. unfold keyed. simpl.
  destruct (key e =? k)%string eqn:E; auto.
  apply String.eqb_eq in E. exfalso. apply H. left. congruence.
Qed.

Lemma bucket_cons_own (e : entry) (groups : list entry) (ks : list string) :
  NoDup ks -> In (key e) ks ->
  Permutation (flat_map (keyed key (e :: groups)) ks)
              (e :: flat_map (keyed key groups) ks).
Proof.
  induction 1 as [|k ks Hk Hks IH]; simpl; [intros []|]. intros Hin.
  unfold keyed at 1. simpl. fold (keyed key groups k).
  destruct (key e =? k)%string eqn:E.
  - apply String.eqb_eq in E. subst k.
    rewrite bucket_cons_other by exact Hk. reflexivity.
  - apply String.eqb_neq in E.
    destruct Hin as [Hin|Hin]; [congruence|].
    rewrite (IH Hin). symmetry. apply Permutation_middle.
Qed.

Lemma partition_by_key (groups : list entry) (ks : list string) :
  NoDup ks -> (forall g, In g groups -> In (key g) ks) ->
  Permutation (flat_map (keyed key groups) ks) groups.
Proof.
  intros Hks. induction groups as [|e groups IH]; intros Hall.
  - replace (flat_map (keyed key []) ks) with (@nil entry); auto.
    clear. induction ks; simpl; auto.
  - rewrite bucket_cons_own; auto.
    + constructor. apply IH. intros g Hg. apply Hall. right. exact Hg.
    + apply Hall. left. reflexivity.
Qed.

End Partition.

Lemma In_buckets_of (name : string) (es : list entry) (groups : list entry) :
  In (name, es) (buckets_of groups) <->
  es <> [] /\
  es = filter (fun g => module_of (filepath g) =? name)%string groups.
Proof.
  unfold buckets_of. rewrite in_map_iff. split.
  - intros (k & E & Hk). injection E as -> <-. split; auto.
    rewrite In_first_occurrences, in_map_iff in Hk.
    destruct Hk as (g & Hg & Hin).
    assert (In g (filter (fun g => module_of (filepath g) =? name)%string groups)).
    { apply filter_In. split; auto. apply String.eqb_eq. exact Hg. }
    intros Hnil. rewrite Hnil in H. exact H.
  - intros [Hne ->]. exists name. split; auto.
    apply In_first_occurrences, in_map_iff.
    destruct (filter (fun g => module_of (filepath g) =? name)%string groups)
      as [|g rest] eqn:Hf; [congruence|].
    assert (Hg : In g (g :: rest)) by (left; reflexivity).
    rewrite <- Hf in Hg. apply filter_In in Hg as [Hg E].
    apply String.eqb_eq in E. eauto.
Qed.

Lemma buckets_of_keys (groups : list entry) :
  map fst (buckets_of groups)
  = first_occurrences (map (fun g => module_of (filepath g)) groups).
Proof. unfold buckets_of. rewrite map_map. simpl. apply map_id. Qed.

Lemma buckets_of_partition (groups : list entry) :
  Permutation (concat (map snd (buckets_of groups))) groups.
Proof.
  unfold buckets_of. rewrite map_map. simpl. rewrite <- flat_map_concat_map.
  apply (partition_by_key (fun g => module_of (filepath g)) groups).
  - apply NoDup_first_occurrences.
  - intros g Hg. apply In_first_occurrences.
    apply (in_map (fun g => module_of (filepath g))). exact Hg.
Qed.

(** C3: classification is total and first-match-wins.  The [if] chain is the
    ordered rule list [RULES] evaluated top to bottom: the module of a path
    is the name of the first rule whose substring occurs in it, and
    [unknown] when no rule's substring occurs.  The buckets have distinct
    names, the bucket of a module holds exactly the groups classified to it,
    in input order, so a group sits in the bucket of its module and in no
    other, and all buckets together are a rearrangement of the input: no
    group is dropped or duplicated. *)
Theorem classification_total_first_match (groups : list entry) :
  (forall fp, module_of fp = classify_by RULES fp) /\
  (forall fp,
      (exists earlier sub later,
          RULES = earlier ++ (sub, module_of fp) :: later /\
          (exists a b, fp = (a ++ sub ++ b)%string) /\
          forall r, In r earlier -> ~ exists a b, fp = (a ++ fst r ++ b)%string)
      \/ (module_of fp = "unknown" /\
          forall r, In r RULES -> ~ exists a b, fp = (a ++ fst r ++ b)%string)) /\
  NoDup (map fst (categorizeMockUsageByModule groups)) /\
  (forall name es,
      In (name, es) (categorizeMockUsageByModule groups) <->
      es <> [] /\
      es = filter (fun g => module_of (filepath g) =? name)%string groups) /\
  (forall g, In g groups ->
     exists es, In (module_of (filepath g), es) (categorizeMockUsageByModule groups)
                /\ In g es) /\
  Permutation (concat (map snd (categorizeMockUsageByModule groups))) groups.
Proof.
  rewrite categorize_buckets. repeat apply conj.
  - apply module_of_rules.
  - intros fp. rewrite module_of_rules.
    destruct (classify_by_first_match RULES fp)
      as [(earlier & sub & later & Hr & Hs & He)|[Hu Hn]].
    + left. exists earlier, sub, later. repeat split; auto.
      * apply includes_iff. exact Hs.
      * intros r Hin Hocc. apply includes_iff in Hocc.
        rewrite (He r Hin) in Hocc. discriminate.
    + right. split; auto. intros r Hin Hocc. apply includes_iff in Hocc.
      rewrite (Hn r Hin) in Hocc. discriminate.
  - rewrite buckets_of_keys. apply NoDup_first_occurrences.
  - intros name es. apply In_buckets_of.
  - intros g Hg.
    exists (filter (fun g' => module_of (filepath g') =? module_of (filepath g))%string groups).
    assert (Hin : In g (filter (fun g' => module_of (filepath g') =? module_of (filepath g))%string groups)).
    { apply filter_In. split; auto. apply String.eqb_refl. }
    split; auto. apply In_buckets_of. split; auto.
    intros Hnil. rewrite Hnil in Hin. exact Hin.
  - apply buckets_of_partition.
Qed.

Lemma classification_total_first_match_witness :
  exists es,
    In (module_of "./src/ui/auth/login.tsx", es)
       (categorizeMockUsageByModule
          [ Entry "./src/lib/x.ts" ["mock"];
            Entry "./src/ui/auth/login.tsx" ["fake user"] ])
    /\ In (Entry "./src/ui/auth/login.tsx" ["fake user"]) es.
Proof.
  apply (proj1 (proj2 (proj2 (proj2 (proj2
           (classification_total_first_match
              [ Entry "./src/lib/x.ts" ["mock"];
                Entry "./src/ui/auth/login.tsx" ["fake user"] ])))))
           (Entry "./src/ui/auth/login.tsx" ["fake user"])).
  simpl. auto.
Defined.

(** ** Rendering *)

Lemma cat_all_cons (x : string) (l : list string) :
  cat_all (x :: l) = (x ++ cat_all l)%string.
Proof. reflexivity. Qed.

Lemma cat_all_app (l1 l2 : list string) :
  cat_all (l1 ++ l2) = (cat_all l1 ++ cat_all l2)%string.
Proof.
  induction l1 as [|x l1 IH]; simpl; auto.
  rewrite IH, string_app_assoc. reflexivity.
Qed.

Lemma fold_render_entry (entries : list entry) (reportContent : string) :
  fold_left render_entry entries reportContent
  = (reportContent ++ cat_all (map entry_text entries))%string.
Proof.
  revert reportContent. induction entries as [|e entries IH]; intros acc; simpl.
  - symmetry. apply string_app_nil_r.
  - rewrite IH. unfold render_entry. apply string_app_assoc.
Qed.

Lemma render_module_text (reportContent : string) (kv : string * list entry) :
  render_module reportContent kv = (reportContent ++ module_text kv)%string.
Proof.
  unfold render_module, module_text.
  rewrite fold_render_entry. apply string_app_assoc.
Qed.

Lemma fold_render_module (modules : modules_t) (reportContent : string) :
  fold_left render_module modules reportContent
  = (reportContent ++ cat_all (map module_text modules))%string.
Proof.
  revert reportContent. induction modules as [|kv modules IH]; intros acc; simpl.
  - symmetry. apply string_app_nil_r.
  - rewrite IH, render_module_text. apply string_app_assoc.
Qed.

(** The report is the opening text, one section per bucket in enumeration
    order, and the closing text. *)
Lemma render_sections (modules : modules_t) :
  render modules
  = (REPORT_HEADER ++ cat_all (map module_text modules) ++ REPORT_FOOTER)%string.
Proof.
  unfold render. rewrite fold_render_module. apply string_app_assoc.
Qed.

Lemma render_locate (name : string) (e : entry) (before_e after_e : list entry)
  (before_m after_m : modules_t) :
  render (before_m ++ (name, before_e ++ e :: after_e) :: after_m)
  = ((REPORT_HEADER ++ cat_all (map module_text before_m))
     ++ module_heading name
     ++ cat_all (map entry_text before_e)
     ++ entry_text e
     ++ (cat_all (map entry_text after_e)
         ++ cat_all (map module_text after_m) ++ REPORT_FOOTER))%string.
Proof.
  rewrite render_sections, map_app, cat_all_app, map_cons, cat_all_cons.
  unfold module_text at 2. cbn [fst snd].
  rewrite map_app, cat_all_app, map_cons, cat_all_cons.
  rewrite !string_app_assoc. reflexivity.
Qed.

Lemma entry_text_first (fp first : string) (rest : list string) :
  entry_text (Entry fp (first :: rest))
  = ("#### `" ++ fp ++ "`" ++ Js.nl ++ Js.nl
     ++ "Context (showing 1 of ${entry.matches.length} matches):"
     ++ Js.nl ++ Js.nl
     ++ "```" ++ Js.nl ++ first ++ Js.nl ++ "```" ++ Js.nl ++ Js.nl)%string.
Proof. reflexivity. Qed.

(** C9: for every file group of every bucket that has at least one context,
    the report holds the group's heading, then the fixed header line with
    the placeholder [${entry.matches.length}] spelled out and not the number
    of matches, then the first context in a fenced block. *)
Theorem context_header_is_literal (mockUsageByModule : modules_t)
  (name : string) (entries : list entry) (e : entry) :
  In (name, entries) mockUsageByModule -> In e entries -> matches e <> [] ->
  exists before after,
    render mockUsageByModule
    = (before
       ++ ("#### `" ++ filepath e ++ "`" ++ Js.nl ++ Js.nl
           ++ "Context (showing 1 of ${entry.matches.length} matches):"
           ++ Js.nl ++ Js.nl
           ++ "```" ++ Js.nl ++ hd EmptyString (matches e) ++ Js.nl
           ++ "```" ++ Js.nl ++ Js.nl)
       ++ after)%string.
Proof.
  intros Hm He Hne.
  apply in_split in Hm as (before_m & after_m & ->).
  apply in_split in He as (before_e & after_e & ->).
  rewrite render_locate.
  destruct e as [fp [|first rest]]; [exfalso; apply Hne; reflexivity|].
  rewrite entry_text_first. cbn [filepath matches hd].
  eexists ((REPORT_HEADER ++ cat_all (map module_text before_m))
           ++ module_heading name ++ cat_all (map entry_text before_e))%string.
  eexists. rewrite !string_app_assoc. reflexivity.
Qed.

Lemma context_header_is_literal_witness :
  exists before after,
    render [ ("ui", [ Entry "./src/ui/a.tsx" ["mock one"; "mock two"; "fake"] ]) ]
    = (before
       ++ ("#### `./src/ui/a.tsx`" ++ Js.nl ++ Js.nl
           ++ "Context (showing 1 of ${entry.matches.length} matches):"
           ++ Js.nl ++ Js.nl
           ++ "```" ++ Js.nl ++ "mock one" ++ Js.nl
           ++ "```" ++ Js.nl ++ Js.nl)
       ++ after)%string.
Proof.
  apply (context_header_is_literal
           [ ("ui", [ Entry "./src/ui/a.tsx" ["mock one"; "mock two"; "fake"] ]) ]
           "ui" [ Entry "./src/ui/a.tsx" ["mock one"; "mock two"; "fake"] ]
           (Entry "./src/ui/a.tsx" ["mock one"; "mock two"; "fake"])).
  - simpl. auto.
  - simpl. auto.
  - simpl. discriminate.
Defined.

(** ** The assessment scenario *)

Lemma filter_none {A} (p : A -> bool) (l : list A) :
  (forall x, In x l -> p x = false) -> filter p l = [].
Proof.
  induction l as [|x l IH]; simpl; auto. intros H.
  rewrite (H x) by auto. apply IH. auto.
Qed.

Lemma first_context_of (preds : list (RawMatch -> bool)) (fp : string)
  (earlier later : list RawMatch) (m : RawMatch) :
  filePath m = fp -> excluded preds m = false ->
  (forall m', In m' earlier -> filePath m' <> fp) ->
  exists rest,
    contexts_of fp (kept preds (earlier ++ m :: later)) = lineContext m :: rest.
Proof.
  intros Hf Hex Hearlier. unfold contexts_of, kept.
  rewrite filter_app. simpl. rewrite Hex. simpl.
  rewrite filter_app. simpl. rewrite Hf, String.eqb_refl.
  rewrite filter_none.
  - simpl. eauto.
  - intros m' Hm'. apply filter_In in Hm' as [Hm' _].
    apply String.eqb_neq. auto.
Qed.

(** C7, as stated, fails: when the loader file has an earlier line that
    matches a pattern (here an import with [mock] in it), both lines are
    stored for the file, the report has the [Assessment Module] section and
    lists the file, but the context shown is the import and the loader line
    is nowhere in the report: only [matches[0]] is rendered. *)
Lemma loader_line_not_shown :
  findMockUsage (grep_tree import_loader_tree)
  = [ Entry loader_path [import_line; loader_line] ] /\
  report_text (env_of_tree import_loader_tree)
  = (REPORT_HEADER
     ++ "### Assessment Module" ++ Js.nl ++ Js.nl
     ++ "Files with mock data:" ++ Js.nl ++ Js.nl
     ++ "#### `./src/assessment/loader.ts`" ++ Js.nl ++ Js.nl
     ++ "Context (showing 1 of ${entry.matches.length} matches):"
     ++ Js.nl ++ Js.nl
     ++ "```" ++ Js.nl ++ "import { mockLoad } from './loaders';" ++ Js.nl
     ++ "```" ++ Js.nl ++ Js.nl
     ++ REPORT_FOOTER)%string /\
  Js.includes (report_text (env_of_tree import_loader_tree))
              "const mockData = load();" = false.
Proof.
  split; [vm_compute; reflexivity|]. split; vm_compute; reflexivity.
Qed.

(** C7, amended: for the loader file of the assessment module, under the
    name [grep -r . ] prints ([./src/assessment/loader.ts]) or without the
    leading [./]: when the first raw match the scan reports for it is the
    line [const mockData = load();], the report has an [Assessment Module]
    section whose list of files (after the assessment files seen earlier)
    holds that path with that line as its context. *)
Theorem assessment_loader_reported (grep : string -> exec_result) (fp : string) :
  In fp [loader_path; "src/assessment/loader.ts"] ->
  (exists earlier m later,
      raw_matches grep MOCK_PATTERNS = earlier ++ m :: later /\
      filePath m = fp /\ lineContext m = loader_line /\
      forall m', In m' earlier -> filePath m' <> fp) ->
  exists before listed after,
    (forall e, In e listed -> module_of (filepath e) = "assessment") /\
    render (categorizeMockUsageByModule (findMockUsage grep))
    = (before
       ++ ("### Assessment Module" ++ Js.nl ++ Js.nl
           ++ "Files with mock data:" ++ Js.nl ++ Js.nl)
       ++ cat_all (map entry_text listed)
       ++ ("#### `" ++ fp ++ "`" ++ Js.nl ++ Js.nl
           ++ "Context (showing 1 of ${entry.matches.length} matches):"
           ++ Js.nl ++ Js.nl
           ++ "```" ++ Js.nl ++ "const mockData = load();" ++ Js.nl
           ++ "```" ++ Js.nl ++ Js.nl)
       ++ after)%string.
Proof.
  intros Hfp (earlier & m & later & Hraw & Hf & Hc & Hearlier).
  assert (Hmod : module_of fp = "assessment").
  { destruct Hfp as [<-|[<-|[]]]; reflexivity. }
  assert (Hex : excluded EXCLUSIONS m = false).
  { destruct m as [fp' c pat]. simpl in Hf, Hc. subst fp' c.
    destruct Hfp as [<-|[<-|[]]]; reflexivity. }
  destruct (first_context_of EXCLUSIONS fp earlier later m Hf Hex Hearlier)
    as [rest Hctx].
  rewrite Hc in Hctx.
  set (e := Entry fp (loader_line :: rest)).
  set (groups := findMockUsage grep).
  assert (Hgroups : In e groups).
  { unfold groups. rewrite findMockUsage_aggregate_matches,
      aggregate_matches_grouping, Hraw.
    unfold group_by_file. apply in_map_iff. exists fp.
    rewrite Hctx. split; auto.
    apply In_first_occurrences, in_map_iff. exists m. split; auto.
    apply In_kept. split; auto. apply in_elt. }
  set (es := filter (fun g => module_of (filepath g) =? "assessment")%string groups).
  assert (Hes : In e es).
  { apply filter_In. split; auto. cbn [e filepath]. rewrite Hmod. reflexivity. }
  assert (Hbucket : In ("assessment", es) (categorizeMockUsageByModule groups)).
  { rewrite categorize_buckets. apply In_buckets_of. split; auto.
    intros Hnil. rewrite Hnil in Hes. exact Hes. }
  apply in_split in Hbucket as (before_m & after_m & Hbuckets).
  destruct (in_split _ _ Hes) as (before_e & after_e & Hsplit).
  exists (REPORT_HEADER ++ cat_all (map module_text before_m))%string, before_e.
  eexists. split.
  - intros g Hg.
    assert (Hin : In g es) by (rewrite Hsplit; apply in_or_app; auto).
    apply filter_In in Hin as [_ E]. apply String.eqb_eq. exact E.
  - rewrite Hbuckets, Hsplit, render_locate. reflexivity.
Qed.

Lemma assessment_loader_reported_witness :
  exists before listed after,
    (forall e, In e listed -> module_of (filepath e) = "assessment") /\
    render (categorizeMockUsageByModule (findMockUsage (grep_tree loader_tree)))
    = (before
       ++ ("### Assessment Module" ++ Js.nl ++ Js.nl
           ++ "Files with mock data:" ++ Js.nl ++ Js.nl)
       ++ cat_all (map entry_text listed)
       ++ ("#### `" ++ loader_path ++ "`" ++ Js.nl ++ Js.nl
           ++ "Context (showing 1 of ${entry.matches.length} matches):"
           ++ Js.nl ++ Js.nl
           ++ "```" ++ Js.nl ++ "const mockData = load();" ++ Js.nl
           ++ "```" ++ Js.nl ++ Js.nl)
       ++ after)%string.
Proof.
  apply (assessment_loader_reported (grep_tree loader_tree) loader_path).
  - simpl. auto.
  - exists [], (Raw loader_path loader_line "mock"),
      [Raw loader_path loader_line "mockData"].
    split; [reflexivity|]. split; [reflexivity|]. split; [reflexivity|].
    intros m' [].
Defined.

(** The whole report of the one-file tree. *)
Example loader_report :
  report_text (env_of_tree loader_tree)
  = (REPORT_HEADER
     ++ "### Assessment Module" ++ Js.nl ++ Js.nl
     ++ "Files with mock data:" ++ Js.nl ++ Js.nl
     ++ "#### `./src/assessment/loader.ts`" ++ Js.nl ++ Js.nl
     ++ "Context (showing 1 of ${entry.matches.length} matches):"
     ++ Js.nl ++ Js.nl
     ++ "```" ++ Js.nl ++ "const mockData = load();" ++ Js.nl
     ++ "```" ++ Js.nl ++ Js.nl
     ++ REPORT_FOOTER)%string.
Proof. vm_compute. reflexivity. Qed.

(** ** Runs *)

Lemma fold_left_ext_in {A B} (f g : A -> B -> A) (l : list B) (a : A) :
  (forall x y, In y l -> f x y = g x y) -> fold_left f l a = fold_left g l a.
Proof.
  revert a. induction l as [|y l IH]; intros a H; simpl; auto.
  rewrite H by (left; reflexivity). apply IH.
  intros x z Hz. apply H. right. exact Hz.
Qed.

Lemma findMockUsage_with_ext (grep1 grep2 : string -> exec_result)
  (patterns : list string) :
  (forall pat, In pat patterns -> grep1 pat = grep2 pat) ->
  findMockUsage_with grep1 patterns = findMockUsage_with grep2 patterns.
Proof.
  intros H. unfold findMockUsage_with. apply fold_left_ext_in.
  intros acc pat Hpat. unfold scan_pattern. rewrite (H pat Hpat). reflexivity.
Qed.

Lemma main_report_text (env : environment) (p c : string) :
  report (main env) = Some (p, c) -> c = report_text env.
Proof.
  unfold main, report_text.
  destruct (report_path env) as [reportPath|error]; [|discriminate].
  destruct (write_file env reportPath _) as [u|error]; [|discriminate].
  cbn [report]. intros H. injection H as _ <-. reflexivity.
Qed.

Lemma findMockUsage_with_no_output (grep : string -> exec_result)
  (patterns : list string) :
  (forall pat, In pat patterns -> exists status msg, grep pat = ExecError status msg) ->
  findMockUsage_with grep patterns = [].
Proof.
  unfold findMockUsage_with. generalize (@nil entry) as acc.
  induction patterns as [|pat patterns IH]; intros acc H; simpl; auto.
  unfold scan_pattern at 2.
  destruct (H pat (or_introl eq_refl)) as (status & msg & ->).
  apply IH. intros pat' Hpat'. apply H. right. exact Hpat'.
Qed.

Lemma scan_errors_no_match (grep : string -> exec_result) (patterns : list string) :
  (forall pat, In pat patterns -> exists msg, grep pat = ExecError (Some 1) msg) ->
  scan_errors grep patterns = [].
Proof.
  induction patterns as [|pat patterns IH]; intros H; simpl; auto.
  destruct (H pat (or_introl eq_refl)) as (msg & ->). simpl.
  apply IH. intros pat' Hpat'. apply H. right. exact Hpat'.
Qed.

Lemma template_has_nothing_beyond :
  ~ has_text_beyond_template (REPORT_HEADER ++ REPORT_FOOTER).
Proof.
  intros (before & s & after & Hs & Htext & Hrest).
  apply Hs. apply (f_equal String.length) in Htext.
  rewrite <- Hrest, !string_length_app in Htext.
  destruct s; [reflexivity|]. simpl in Htext. lia.
Qed.

(** C5, as stated, fails in one part: on a tree where nothing matches, the
    file written is the opening text followed at once by the closing text,
    the same text that frames the report of a run with findings; it holds no
    summary and nothing else that says there are no findings. *)
Lemma empty_report_has_no_summary :
  main (env_of_tree [])
  = Run 0
      (Some ("/repo/workstream-mock-replacement-report.md",
             (REPORT_HEADER ++ REPORT_FOOTER)%string))
      [ "Starting mock replacement analysis...";
        "Searching for mock data usage...";
        "Found 0 files with mock data usage";
        "Categorized mock usage by module: ";
        "Generated mock replacement report at /repo/workstream-mock-replacement-report.md";
        "This is a simplified version of the script. For full functionality, please run locally." ]
      [] /\
  ~ has_text_beyond_template (REPORT_HEADER ++ REPORT_FOOTER) /\
  has_text_beyond_template (report_text (env_of_tree loader_tree)).
Proof.
  split; [vm_compute; reflexivity|]. split; [apply template_has_nothing_beyond|].
  exists REPORT_HEADER.
  exists (cat_all (map module_text
            (categorizeMockUsageByModule (findMockUsage (grep_tree loader_tree))))).
  exists REPORT_FOOTER. split; [|split].
  - vm_compute. discriminate.
  - unfold report_text. apply render_sections.
  - reflexivity.
Qed.

(** C5, amended: when [grep] exits with status 1 for every pattern, the run
    is not an error.  The scan yields the empty sequence, there is no
    bucket, the report is the opening text followed by the closing text with
    no per-module section, nothing is written to the error stream, the
    console says that 0 files were found, and the process ends with status 0
    once the report file is written. *)
Theorem empty_scan_is_not_an_error (env : environment) (reportPath : string) :
  (forall pat, In pat MOCK_PATTERNS ->
               exists msg, search env pat = ExecError (Some 1) msg) ->
  report_path env = Returned reportPath ->
  write_file env reportPath (REPORT_HEADER ++ REPORT_FOOTER)%string = Returned tt ->
  findMockUsage (search env) = [] /\
  categorizeMockUsageByModule (findMockUsage (search env)) = [] /\
  report_text env = (REPORT_HEADER ++ REPORT_FOOTER)%string /\
  main env
  = Run 0
      (Some (reportPath, (REPORT_HEADER ++ REPORT_FOOTER)%string))
      [ "Starting mock replacement analysis...";
        "Searching for mock data usage...";
        "Found 0 files with mock data usage";
        "Categorized mock usage by module: ";
        ("Generated mock replacement report at " ++ reportPath)%string;
        "This is a simplified version of the script. For full functionality, please run locally." ]
      [].
Proof.
  intros Hgrep Hpath Hwrite.
  assert (Hscan : findMockUsage (search env) = []).
  { apply findMockUsage_with_no_output. intros pat Hpat.
    destruct (Hgrep pat Hpat) as [msg ->]. eauto. }
  assert (Htext : report_text env = (REPORT_HEADER ++ REPORT_FOOTER)%string).
  { unfold report_text. rewrite Hscan. reflexivity. }
  repeat split; auto.
  - rewrite Hscan. reflexivity.
  - unfold main. rewrite Hpath, Hscan, (scan_errors_no_match _ _ Hgrep).
    change (render (categorizeMockUsageByModule []))
      with (REPORT_HEADER ++ REPORT_FOOTER)%string.
    rewrite Hwrite. reflexivity.
Qed.

Lemma empty_scan_is_not_an_error_witness :
  exit_status (main (env_of_tree [])) = 0.
Proof.
  pose proof (empty_scan_is_not_an_error (env_of_tree [])
                "/repo/workstream-mock-replacement-report.md") as H.
  destruct H as (_ & _ & _ & ->).
  - intros pat _. exists "Command failed". reflexivity.
  - reflexivity.
  - reflexivity.
  - reflexivity.
Defined.

(** C8: the report is a function of what [grep] prints for the configured
    patterns and of nothing else.  Two runs in which [grep] answers alike
    find the same groups and render the same text, and when both write a
    report the two contents are equal, wherever they are written. *)
Theorem report_deterministic (env1 env2 : environment) :
  (forall pat, In pat MOCK_PATTERNS -> search env1 pat = search env2 pat) ->
  findMockUsage (search env1) = findMockUsage (search env2) /\
  report_text env1 = report_text env2 /\
  (forall p1 c1 p2 c2,
      report (main env1) = Some (p1, c1) ->
      report (main env2) = Some (p2, c2) -> c1 = c2).
Proof.
  intros H.
  assert (Hscan : findMockUsage (search env1) = findMockUsage (search env2)).
  { apply findMockUsage_with_ext. exact H. }
  assert (Htext : report_text env1 = report_text env2).
  { unfold report_text. rewrite Hscan. reflexivity. }
  repeat split; auto.
  intros p1 c1 p2 c2 H1 H2.
  apply main_report_text in H1, H2. congruence.
Qed.

Lemma report_deterministic_witness :
  report_text (env_of_tree loader_tree)
  = report_text
      (Env (fun pat => if (pat =? "TODO")%string
                       then Stdout "./src/ui/x.ts:TODO"
                       else grep_tree loader_tree pat)
           (Returned "/tmp/report.md")
           (fun _ _ => Thrown "EACCES")).
Proof.
  apply (report_deterministic (env_of_tree loader_tree)
           (Env (fun pat => if (pat =? "TODO")%string
                            then Stdout "./src/ui/x.ts:TODO"
                            else grep_tree loader_tree pat)
                (Returned "/tmp/report.md")
                (fun _ _ => Thrown "EACCES"))).
  intros pat Hpat. simpl in Hpat.
  repeat (destruct Hpat as [<-|Hpat]; [reflexivity|]).
  destruct Hpat.
Defined.

(** * Further properties of the mock-replacement script *)

(** ** Splitting the output of the child process *)

Lemma split_nonempty (sep : ascii) (s : string) : Js.split sep s <> [].
Proof.
  destruct s as [|c s]; simpl; [discriminate|].
  destruct (Ascii.eqb c sep); [discriminate|].
  destruct (Js.split sep s); discriminate.
Qed.

Lemma includes_char_cons (sep c : ascii) (s : string) :
  Js.includes (String c s) (String sep EmptyString) = false ->
  c <> sep /\ Js.includes s (String sep EmptyString) = false.
Proof.
  cbn [Js.includes]. simpl prefix.
  destruct (ascii_dec sep c) as [->|Hne].
  - destruct s; discriminate.
  - intros H. split; [congruence | exact H].
Qed.

Lemma split_app_sep (sep : ascii) (a b : string) :
  Js.includes a (String sep EmptyString) = false ->
  Js.split sep (a ++ String sep b) = a :: Js.split sep b.
Proof.
  induction a as [|c a IH]; intros H.
  - simpl. rewrite Ascii.eqb_refl. reflexivity.
  - apply includes_char_cons in H as [Hc Ha].
    simpl. apply Ascii.eqb_neq in Hc. rewrite Hc, (IH Ha). reflexivity.
Qed.

Lemma split_no_sep (sep : ascii) (a : string) :
  Js.includes a (String sep EmptyString) = false -> Js.split sep a = [a].
Proof.
  induction a as [|c a IH]; intros H; [reflexivity|].
  apply includes_char_cons in H as [Hc Ha].
  simpl. apply Ascii.eqb_neq in Hc. rewrite Hc, (IH Ha). reflexivity.
Qed.

Lemma join_split (sep : ascii) (s : string) :
  Js.join (String sep EmptyString) (Js.split sep s) = s.
Proof.
  unfold Js.join. induction s as [|c s IH]; [reflexivity|].
  simpl Js.split. destruct (Ascii.eqb c sep) eqn:E.
  - apply Ascii.eqb_eq in E. subst c.
    pose proof (split_nonempty sep s) as Hne.
    destruct (Js.split sep s) as [|p ps]; [congruence|].
    change (String.concat (String sep EmptyString) (EmptyString :: p :: ps))
      with (String sep (String.concat (String sep EmptyString) (p :: ps))).
    rewrite IH. reflexivity.
  - pose proof (split_nonempty sep s) as Hne.
    destruct (Js.split sep s) as [|p ps]; [congruence|].
    destruct ps as [|q ps]; simpl in *; congruence.
Qed.

(** X1: a line [path:context] whose path has no colon is split into that
    path and that context, colons of the context included; a line without a
    colon becomes a path with an empty context. *)
Theorem parse_line_path_context (pat fp ctx : string) :
  Js.includes fp ":" = false ->
  parse_line pat (fp ++ ":" ++ ctx) = Raw fp ctx pat /\
  parse_line pat fp = Raw fp EmptyString pat.
Proof.
  intros H. unfold parse_line, Js.colon. split.
  - change (fp ++ ":" ++ ctx)%string with (fp ++ String ":" ctx)%string.
    rewrite (split_app_sep ":" fp ctx H). cbn [hd tl].
    rewrite (join_split ":" ctx). reflexivity.
  - rewrite (split_no_sep ":" fp H). reflexivity.
Qed.

Lemma parse_line_path_context_witness :
  parse_line "mock" "./src/a.ts:  label: mockData," 
  = Raw "./src/a.ts" "  label: mockData," "mock".
Proof.
  apply (proj1 (parse_line_path_context "mock" "./src/a.ts" "  label: mockData,"
                  eq_refl)).
Defined.

Lemma output_lines_terminated (l rest : string) :
  l <> EmptyString -> Js.includes l Js.nl = false ->
  output_lines (l ++ Js.nl ++ rest) = l :: output_lines rest.
Proof.
  intros Hne Hnl. unfold output_lines, Js.newline.
  change (l ++ Js.nl ++ rest)%string with (l ++ String "010" rest)%string.
  rewrite (split_app_sep "010" l rest Hnl). simpl.
  destruct l; [congruence|]. reflexivity.
Qed.

(** X2: when the child process prints lines that are non-empty and free of
    line feeds, each ended by a line feed, the script recovers exactly those
    lines: the final line feed yields no extra entry. *)
Theorem output_lines_round_trip (ls : list string) :
  (forall l, In l ls -> l <> EmptyString /\ Js.includes l Js.nl = false) ->
  output_lines (cat_all (map (fun l => (l ++ Js.nl)%string) ls)) = ls.
Proof.
  induction ls as [|l ls IH]; intros H; [reflexivity|].
  rewrite map_cons, cat_all_cons, string_app_assoc.
  destruct (H l (or_introl eq_refl)) as [Hne Hnl].
  rewrite (output_lines_terminated l _ Hne Hnl). f_equal.
  apply IH. intros l' Hl'. apply H. right. exact Hl'.
Qed.

Lemma output_lines_round_trip_witness :
  output_lines
    (cat_all (map (fun l => (l ++ Js.nl)%string)
                  ["./a.ts:mock one"; "./b.ts:x: mock two"]))
  = ["./a.ts:mock one"; "./b.ts:x: mock two"].
Proof.
  apply (output_lines_round_trip ["./a.ts:mock one"; "./b.ts:x: mock two"]).
  intros l Hl. simpl in Hl.
  destruct Hl as [<-|[<-|[]]]; split; (discriminate || reflexivity).
Defined.

(** ** Groups *)

(** X3: every group of the aggregation holds at least one context, so the
    guard [entry.matches.length > 0] of [main] never fails on the output of
    [findMockUsage]: each listed file is followed by a fenced block with its
    first context. *)
Theorem groups_have_a_context (grep : string -> exec_result) :
  (forall ms g, In g (aggregate_matches ms) -> matches g <> []) /\
  (forall g, In g (findMockUsage grep) ->
     exists first rest,
       matches g = first :: rest /\
       entry_text g
       = ("#### `" ++ filepath g ++ "`" ++ Js.nl ++ Js.nl
          ++ CONTEXT_HEADER ++ Js.nl ++ Js.nl
          ++ "```" ++ Js.nl ++ first ++ Js.nl ++ "```" ++ Js.nl ++ Js.nl)%string).
Proof.
  assert (H : forall ms g, In g (aggregate_matches ms) -> matches g <> []).
  { intros ms g Hg. rewrite aggregate_matches_grouping in Hg.
    apply In_group_by_file in Hg as [Hpath ->].
    apply in_map_iff in Hpath as (m & Hf & Hm).
    intros Hnil.
    assert (Hin : In (lineContext m) (contexts_of (filepath g) (kept EXCLUSIONS ms))).
    { apply In_contexts_of. eauto. }
    rewrite Hnil in Hin. exact Hin. }
  split; [exact H|].
  intros g Hg. rewrite findMockUsage_aggregate_matches in Hg.
  apply H in Hg. destruct g as [fp [|first rest]]; [exfalso; apply Hg; reflexivity|].
  exists first, rest. split; reflexivity.
Qed.

Lemma groups_have_a_context_witness :
  matches (Entry "./src/a.ts" ["mock"]) <> [].
Proof.
  apply (proj1 (groups_have_a_context (fun _ => Stdout EmptyString))
           [Raw "./src/a.ts" "mock" "mock"]).
  simpl. auto.
Defined.

(** X4: a context is stored under a file exactly when some raw match that
    no exclusion test rejects has that file and that context: the
    aggregation neither invents nor loses a line. *)
Theorem stored_iff_kept_match (ms : list RawMatch) (fp c : string) :
  In (fp, c) (stored_pairs (aggregate_matches ms)) <->
  exists m, In m ms /\ excluded EXCLUSIONS m = false /\
            filePath m = fp /\ lineContext m = c.
Proof.
  rewrite aggregate_matches_grouping, In_stored_pairs_group, in_map_iff.
  unfold located. split.
  - intros (m & E & Hm). apply In_kept in Hm as [Hm Hex].
    injection E as Hf Hc. eauto.
  - intros (m & Hm & Hex & Hf & Hc). exists m. split; [congruence|].
    apply In_kept. auto.
Qed.

Lemma stored_iff_kept_match_witness :
  In ("./src/a.ts", "const mockData = 1;")
     (stored_pairs
        (aggregate_matches
           [ Raw "./src/a.test.ts" "mock" "mock";
             Raw "./src/a.ts" "const mockData = 1;" "mockData" ])).
Proof.
  apply (proj2 (stored_iff_kept_match
                  [ Raw "./src/a.test.ts" "mock" "mock";
                    Raw "./src/a.ts" "const mockData = 1;" "mockData" ]
                  "./src/a.ts" "const mockData = 1;")).
  exists (Raw "./src/a.ts" "const mockData = 1;" "mockData").
  repeat split. simpl. auto.
Defined.

Lemma group_by_file_absorbs (l : list RawMatch) (m : RawMatch) :
  In (located m) (map located l) -> group_by_file (l ++ [m]) = group_by_file l.
Proof.
  intros Hin. apply in_map_iff in Hin as (m0 & E & Hm0).
  unfold located in E. injection E as Hf Hc.
  unfold group_by_file. rewrite map_app. simpl.
  rewrite first_occurrences_snoc.
  assert (Hseen : existsb (fun y => y =? filePath m)%string (map filePath l) = true).
  { apply existsb_eqb_In, in_map_iff. eauto. }
  rewrite Hseen, app_nil_r. apply map_ext. intros k.
  rewrite contexts_of_snoc.
  destruct (filePath m =? k)%string eqn:E; auto.
  apply String.eqb_eq in E. subst k.
  assert (Hdup : existsb (fun y => y =? lineContext m)%string
                   (contexts_of (filePath m) l) = true).
  { apply existsb_eqb_In, In_contexts_of. eauto. }
  rewrite Hdup, app_nil_r. reflexivity.
Qed.

Lemma located_excluded (preds := EXCLUSIONS) (m m' : RawMatch) :
  located m = located m' -> excluded preds m = excluded preds m'.
Proof.
  unfold located. intros E. injection E as Hf Hc.
  unfold excluded, preds, EXCLUSIONS, is_test_file, in_node_modules, is_real_data.
  simpl. rewrite Hf, Hc. reflexivity.
Qed.

Lemma aggregate_matches_snoc_seen (ms : list RawMatch) (m : RawMatch) :
  In (located m) (map located ms) ->
  aggregate_matches (ms ++ [m]) = aggregate_matches ms.
Proof.
  intros Hin. rewrite !aggregate_matches_grouping. unfold kept.
  rewrite filter_app. cbn [filter].
  destruct (excluded EXCLUSIONS m) eqn:Hex; cbn [negb];
    [rewrite app_nil_r; reflexivity|].
  apply group_by_file_absorbs.
  apply in_map_iff in Hin as (m0 & E & Hm0).
  apply in_map_iff. exists m0. split; auto.
  apply filter_In. split; auto.
  rewrite (located_excluded m0 m E), Hex. reflexivity.
Qed.

(** X5: raw matches that repeat the file and line of an earlier raw match
    change nothing, under whatever pattern they are reported: the output on
    [ms ++ ms'] is the output on [ms].  In particular feeding the same raw
    matches twice gives the same groups. *)
Theorem repeated_matches_absorbed (ms ms' : list RawMatch) :
  (forall m', In m' ms' -> In (located m') (map located ms)) ->
  aggregate_matches (ms ++ ms') = aggregate_matches ms.
Proof.
  induction ms' as [|m' ms' IH] using rev_ind; intros H.
  - rewrite app_nil_r. reflexivity.
  - rewrite app_assoc, aggregate_matches_snoc_seen.
    + apply IH. intros x Hx. apply H. apply in_or_app. auto.
    + rewrite map_app. apply in_or_app. left.
      apply H. apply in_or_app. right. left. reflexivity.
Qed.

Lemma repeated_matches_absorbed_witness :
  aggregate_matches
    ([ Raw "./src/a.ts" "const mockData = 1;" "mock" ]
     ++ [ Raw "./src/a.ts" "const mockData = 1;" "mockData" ])
  = aggregate_matches [ Raw "./src/a.ts" "const mockData = 1;" "mock" ].
Proof.
  apply (repeated_matches_absorbed
           [ Raw "./src/a.ts" "const mockData = 1;" "mock" ]
           [ Raw "./src/a.ts" "const mockData = 1;" "mockData" ]).
  intros m' [<-|[]]. simpl. auto.
Defined.

(** ** Exclusions and errors *)

Lemma toLowerCase_app (a b : string) :
  Js.toLowerCase (a ++ b) = (Js.toLowerCase a ++ Js.toLowerCase b)%string.
Proof. induction a as [|c a IH]; simpl; congruence. Qed.

(** X6: a raw match whose line holds the word [database] in any mix of
    letter cases is skipped, so its line is never stored. *)
Theorem database_exclusion_any_case (m : RawMatch) (a w b : string) :
  lineContext m = (a ++ w ++ b)%string ->
  Js.toLowerCase w = "database" ->
  (forall results, record_match results m = results) /\
  (forall ms fp, ~ In (fp, lineContext m) (stored_pairs (aggregate_matches ms))).
Proof.
  intros Hc Hw.
  assert (Hreal : is_real_data m = true).
  { unfold is_real_data. rewrite Hc, !toLowerCase_app, Hw.
    apply includes_inside. }
  split.
  - intros results. unfold record_match. rewrite Hreal.
    destruct (is_test_file m), (in_node_modules m); reflexivity.
  - intros ms fp Hin. apply stored_iff_kept_match in Hin
      as (m' & _ & Hex & _ & Hc').
    unfold excluded, EXCLUSIONS in Hex. simpl in Hex.
    unfold is_real_data in Hreal, Hex. rewrite Hc' in Hex. rewrite Hreal in Hex.
    rewrite !orb_true_r in Hex. discriminate.
Qed.

Lemma database_exclusion_any_case_witness :
  record_match [] (Raw "./src/a.ts" "// mock until the DataBase is ready" "mock")
  = [].
Proof.
  apply (proj1 (database_exclusion_any_case
                  (Raw "./src/a.ts" "// mock until the DataBase is ready" "mock")
                  "// mock until the " "DataBase" " is ready"
                  eq_refl eq_refl)).
Defined.

(** X7: a pattern whose search throws, with whatever exit status, adds
    nothing and stops nothing: the groups are those of the patterns whose
    search returned output, in the same order. *)
Theorem failed_patterns_are_skipped (grep : string -> exec_result)
  (patterns : list string) :
  findMockUsage_with grep patterns
  = findMockUsage_with grep
      (filter (fun pat => match grep pat with
                          | Stdout _ => true
                          | ExecError _ _ => false
                          end) patterns).
Proof.
  unfold findMockUsage_with. generalize (@nil entry) as acc.
  induction patterns as [|pat patterns IH]; intros acc; simpl; auto.
  destruct (grep pat) as [output|status message] eqn:E; simpl.
  - rewrite IH. reflexivity.
  - unfold scan_pattern at 2. rewrite E. apply IH.
Qed.

(** ** Buckets and the report *)

Lemma classify_by_range (rules : list (string * string)) (fp : string) :
  In (classify_by rules fp) ("unknown" :: map snd rules).
Proof.
  induction rules as [|[sub name] rules IH]; simpl; auto.
  destruct (Js.includes fp sub); auto.
  destruct IH as [IH|IH]; auto.
Qed.

Lemma module_of_range (fp : string) :
  In (module_of fp)
     [ "unknown"; "auth"; "assessment"; "item-banking"; "psychometric";
       "results"; "admin"; "analytics"; "ui" ].
Proof.
  rewrite module_of_rules.
  pose proof (classify_by_range RULES fp) as H. simpl in H. simpl.
  intuition.
Qed.

(** X8: whatever the groups are, a bucket is named by one of the nine
    module names of the [if] chain ([unknown] included), the names are
    pairwise distinct, and no bucket is empty; so the report has at most
    nine module sections. *)
Theorem at_most_nine_buckets (groups : list entry) :
  (forall name es, In (name, es) (categorizeMockUsageByModule groups) ->
     es <> [] /\
     In name [ "unknown"; "auth"; "assessment"; "item-banking"; "psychometric";
               "results"; "admin"; "analytics"; "ui" ]) /\
  length (categorizeMockUsageByModule groups) <= 9.
Proof.
  assert (Hnames : incl (map fst (categorizeMockUsageByModule groups))
                     [ "unknown"; "auth"; "assessment"; "item-banking";
                       "psychometric"; "results"; "admin"; "analytics"; "ui" ]).
  { rewrite categorize_buckets, buckets_of_keys. intros name Hin.
    apply In_first_occurrences, in_map_iff in Hin as (g & <- & _).
    apply module_of_range. }
  split.
  - intros name es Hin. split.
    + rewrite categorize_buckets in Hin. apply In_buckets_of in Hin. tauto.
    + apply Hnames. apply (in_map fst) in Hin. exact Hin.
  - rewrite <- (length_map fst).
    change 9 with (length [ "unknown"; "auth"; "assessment"; "item-banking";
                            "psychometric"; "results"; "admin"; "analytics"; "ui" ]).
    apply NoDup_incl_length; auto.
    rewrite categorize_buckets, buckets_of_keys. apply NoDup_first_occurrences.
Qed.

Lemma at_most_nine_buckets_witness :
  [Entry "./src/auth/a.ts" ["mock"]] <> [] /\
  In "auth" [ "unknown"; "auth"; "assessment"; "item-banking"; "psychometric";
              "results"; "admin"; "analytics"; "ui" ].
Proof.
  apply (proj1 (at_most_nine_buckets [Entry "./src/auth/a.ts" ["mock"]])
           "auth" [Entry "./src/auth/a.ts" ["mock"]]).
  simpl. auto.
Defined.

(** X9: the report as a function of the groups: the opening text, then for
    each module in order of its first group a heading followed by the
    entries of the groups of that module in input order, then the closing
    text. *)
Theorem report_of_groups (groups : list entry) :
  render (categorizeMockUsageByModule groups)
  = (REPORT_HEADER
     ++ cat_all
          (map (fun name =>
                  ("### " ++ Js.capitalize name ++ " Module" ++ Js.nl ++ Js.nl
                   ++ "Files with mock data:" ++ Js.nl ++ Js.nl
                   ++ cat_all
                        (map entry_text
                           (filter (fun g => module_of (filepath g) =? name)
                                   groups)))%string)
               (first_occurrences (map (fun g => module_of (filepath g)) groups)))
     ++ REPORT_FOOTER)%string.
Proof.
  rewrite render_sections, categorize_buckets. unfold buckets_of.
  rewrite map_map. do 3 f_equal. apply map_ext. intros name.
  unfold module_text, module_heading. cbn [fst snd].
  rewrite !string_app_assoc. reflexivity.
Qed.

(** X10: the run ends with status 0 exactly when the report path is
    obtained and [fs.writeFileSync] returns, and with status 1 otherwise;
    failures of the searches, with whatever status, never change the exit
    status.  On status 0 the write that returned was given the report path
    and the rendered report. *)
Theorem exit_status_iff_written (env : environment) :
  (exit_status (main env) = 0 <->
   exists reportPath u,
     report_path env = Returned reportPath /\
     write_file env reportPath (report_text env) = Returned u) /\
  (exit_status (main env) = 0 \/ exit_status (main env) = 1) /\
  (exit_status (main env) = 0 ->
   exists reportPath,
     report_path env = Returned reportPath /\
     report (main env) = Some (reportPath, report_text env)).
Proof.
  unfold main, report_text.
  destruct (report_path env) as [reportPath|error]; cbn [exit_status report].
  - destruct (write_file env reportPath _) as [u|error] eqn:Hw;
      cbn [exit_status report]; repeat split; auto; try discriminate; eauto;
      intros (p & u' & Hp & Hw'); injection Hp as <-; congruence.
  - repeat split; auto; try discriminate.
    intros (p & u & Hp & _). discriminate.
Qed.

Lemma exit_status_iff_written_witness :
  exit_status
    (main (Env (fun _ => ExecError (Some 2) "grep: ./dist: Permission denied")
               (Returned "/repo/report.md") (fun _ _ => Returned tt))) = 0.
Proof.
  apply (proj2 (proj1 (exit_status_iff_written
           (Env (fun _ => ExecError (Some 2) "grep: ./dist: Permission denied")
                (Returned "/repo/report.md") (fun _ _ => Returned tt))))).
  exists "/repo/report.md", tt. split; reflexivity.
Defined.

(** * Properties of the repository-pattern script *)

Lemma repo_update_assign (key : string) (f : Repo.access -> Repo.access)
  (v : Repo.access) (results : Repo.results_t) :
  Repo.update key f (Repo.assign key v results) = Repo.assign key (f v) results.
Proof.
  induction results as [|[k w] results IH]; simpl.
  - rewrite String.eqb_refl. reflexivity.
  - destruct (k =? key)%string eqn:E; simpl; rewrite E; [reflexivity|].
    rewrite IH. reflexivity.
Qed.

Lemma repo_assign_fresh (key : string) (v : Repo.access) (results : Repo.results_t) :
  ~ In key (map fst results) -> Repo.assign key v results = results ++ [(key, v)].
Proof.
  induction results as [|[k w] results IH]; simpl; auto. intros H.
  destruct (k =? key)%string eqn:E.
  - apply String.eqb_eq in E. tauto.
  - rewrite IH by tauto. reflexivity.
Qed.

Lemma fold_set_add (l : list string) :
  fold_left Repo.set_add l [] = first_occurrences l.
Proof.
  induction l as [|x l IH] using rev_ind; [reflexivity|].
  rewrite fold_left_app, first_occurrences_snoc. simpl. rewrite IH.
  unfold Repo.set_add. rewrite existsb_first_occurrences.
  destruct (existsb (fun y => y =? x)%string l);
    [rewrite app_nil_r|]; reflexivity.
Qed.

Lemma access_files_first_occurrences (lines : list string) :
  Repo.access_files lines
  = first_occurrences
      (map (fun line => hd EmptyString (Js.split Js.colon line)) lines).
Proof.
  unfold Repo.access_files. rewrite <- fold_set_add, fold_left_map. reflexivity.
Qed.

Lemma scan_module_assign (env : Repo.environment) (results : Repo.results_t)
  (m : string) :
  Repo.scan_module env results m
  = Repo.assign m (Repo.module_result env m) results.
Proof.
  unfold Repo.scan_module, Repo.module_result.
  destruct (Repo.module_dir env m) as [dir|error]; [|reflexivity].
  destruct (Repo.existsSync env dir); [|reflexivity].
  rewrite repo_update_assign. cbn [Repo.hasDirectAccess Repo.files].
  destruct (Repo.search env dir) as [output|status message]; [|reflexivity].
  destruct (output_lines output) as [|line lines] eqn:E; [reflexivity|].
  rewrite !repo_update_assign.
  cbn [Repo.hasDirectAccess Repo.files Repo.moduleDir].
  rewrite access_files_first_occurrences. reflexivity.
Qed.

Lemma fold_assign_fresh (g : string -> Repo.access) (ms : list string)
  (acc : Repo.results_t) :
  NoDup ms -> (forall m, In m ms -> ~ In m (map fst acc)) ->
  fold_left (fun r m => Repo.assign m (g m) r) ms acc
  = acc ++ map (fun m => (m, g m)) ms.
Proof.
  intros Hnd. revert acc. induction Hnd as [|m ms Hm Hms IH]; intros acc H; simpl.
  - rewrite app_nil_r. reflexivity.
  - rewrite repo_assign_fresh by (apply H; left; reflexivity).
    rewrite IH.
    + rewrite <- app_assoc. reflexivity.
    + intros m' Hm'. rewrite map_app, in_app_iff. simpl.
      intros [Hin|[<-|[]]]; [|tauto].
      apply (H m'); auto. right. exact Hm'.
Qed.

(** X11: the scan leaves exactly one entry per configured module, in the
    configured order, and the entry of a module depends on that module's
    directory alone: no directory (or an error before the search) gives
    [null]/[false]/[[]]; a search that throws, with whatever status, or
    prints nothing gives the directory with [false]/[[]]; otherwise the
    entry holds the directory, [true], and the files of the printed lines,
    each once, in first-seen order. *)
Theorem repo_scan_per_module (env : Repo.environment) :
  Repo.findDirectDatabaseAccess env
  = map (fun m => (m, Repo.module_result env m)) Repo.MODULES.
Proof.
  unfold Repo.findDirectDatabaseAccess.
  rewrite (fold_left_ext _ (fun r m => Repo.assign m (Repo.module_result env m) r))
    by (intros; apply scan_module_assign).
  rewrite fold_assign_fresh; [reflexivity| |intros m _ []].
  unfold Repo.MODULES.
  repeat (constructor; [simpl; intuition discriminate|]). constructor.
Qed.

Lemma module_result_invariant (env : Repo.environment) (m : string) :
  let r := Repo.module_result env m in
  NoDup (Repo.files r) /\
  (Repo.hasDirectAccess r = true <-> Repo.files r <> []) /\
  (Repo.hasDirectAccess r = true ->
   exists dir, Repo.module_dir env m = Returned dir /\
               Repo.moduleDir r = Some dir /\ Repo.existsSync env dir = true).
Proof.
  unfold Repo.module_result.
  destruct (Repo.module_dir env m) as [dir|error];
    [|simpl; repeat split; (constructor || discriminate || congruence)].
  destruct (Repo.existsSync env dir) eqn:Hex;
    [|simpl; repeat split; (constructor || discriminate || congruence)].
  destruct (Repo.search env dir) as [output|status message];
    [|simpl; repeat split; (constructor || discriminate || congruence)].
  destruct (output_lines output) as [|line lines];
    [simpl; repeat split; (constructor || discriminate || congruence)|].
  cbn [Repo.files Repo.hasDirectAccess Repo.moduleDir]. repeat split.
  - apply NoDup_first_occurrences.
  - intros _. simpl. discriminate.
  - intros _. eauto.
Qed.

(** X12: in every entry of the scan the file list has no duplicates, the
    flag [hasDirectAccess] is set exactly when the file list is non-empty,
    and a set flag comes with the directory of an existing module; so the
    tests [files.length > 0] of [main] never decide anything. *)
Theorem repo_entries_consistent (env : Repo.environment) (m : string)
  (r : Repo.access) :
  In (m, r) (Repo.findDirectDatabaseAccess env) ->
  NoDup (Repo.files r) /\
  (Repo.hasDirectAccess r = true <-> Repo.files r <> []) /\
  (Repo.hasDirectAccess r = true ->
   exists dir, Repo.moduleDir r = Some dir /\ Repo.existsSync env dir = true) /\
  (Repo.hasDirectAccess r && Nat.ltb 0 (length (Repo.files r)))%bool
  = Repo.hasDirectAccess r.
Proof.
  rewrite repo_scan_per_module, in_map_iff. intros (m' & E & _).
  injection E as -> <-.
  destruct (module_result_invariant env m) as (Hnd & Hiff & Hdir).
  repeat split; auto; try apply Hiff.
  - intros H. destruct (Hdir H) as (dir & _ & Hd & He). eauto.
  - destruct (Repo.hasDirectAccess (Repo.module_result env m)) eqn:Hh; auto.
    assert (Hne : Repo.files (Repo.module_result env m) <> []) by (apply Hiff; auto).
    destruct (Repo.files (Repo.module_result env m)); [congruence|reflexivity].
Qed.

Lemma repo_entries_consistent_witness :
  NoDup ["/repo/src/modules/auth/a.ts"; "/repo/src/modules/auth/b.ts"].
Proof.
  refine (proj1 (repo_entries_consistent repo_demo_env "auth"
            (Repo.Access (Some "/repo/src/modules/auth") true
               ["/repo/src/modules/auth/a.ts"; "/repo/src/modules/auth/b.ts"])
            _)).
  vm_compute. left. reflexivity.
Defined.

Lemma repo_fold_render (results : Repo.results_t) (reportContent : string) :
  fold_left Repo.render_section results reportContent
  = (reportContent ++ cat_all (map Repo.section_text results))%string.
Proof.
  revert reportContent. induction results as [|kv results IH]; intros acc; simpl.
  - symmetry. apply string_app_nil_r.
  - rewrite IH. unfold Repo.render_section. apply string_app_assoc.
Qed.

(** X13: the report always has one section per configured module, in the
    configured order, between the opening and the closing text; and when no
    module directory exists every section says so, whatever the searches
    would print. *)
Theorem repo_report_sections (env : Repo.environment) :
  Repo.render (Repo.findDirectDatabaseAccess env)
  = (Repo.REPORT_HEADER
     ++ cat_all (map (fun m => Repo.section_text (m, Repo.module_result env m))
                     Repo.MODULES)
     ++ Repo.REPORT_FOOTER)%string /\
  ((forall m dir, In m Repo.MODULES -> Repo.module_dir env m = Returned dir ->
                  Repo.existsSync env dir = false) ->
   Repo.render (Repo.findDirectDatabaseAccess env)
   = (Repo.REPORT_HEADER
      ++ cat_all (map (fun m => ("### " ++ Js.capitalize m ++ " Module"
                                 ++ Js.nl ++ Js.nl
                                 ++ "- Module directory not found" ++ Js.nl
                                 ++ Js.nl)%string)
                      Repo.MODULES)
      ++ Repo.REPORT_FOOTER)%string).
Proof.
  assert (H : Repo.render (Repo.findDirectDatabaseAccess env)
              = (Repo.REPORT_HEADER
                 ++ cat_all (map (fun m => Repo.section_text (m, Repo.module_result env m))
                                 Repo.MODULES)
                 ++ Repo.REPORT_FOOTER)%string).
  { unfold Repo.render. rewrite repo_fold_render, repo_scan_per_module, map_map.
    apply string_app_assoc. }
  split; [exact H|].
  intros Hmissing. rewrite H. do 3 f_equal.
  apply map_ext_in. intros m Hm.
  unfold Repo.section_text, Repo.module_result. cbn [fst snd].
  destruct (Repo.module_dir env m) as [dir|error] eqn:Hd; [|reflexivity].
  rewrite (Hmissing m dir Hm Hd). reflexivity.
Qed.

Lemma repo_report_sections_witness :
  Repo.render
    (Repo.findDirectDatabaseAccess
       (Repo.Env (fun m => Returned ("/tmp/src/modules/" ++ m)%string)
                 (fun _ => false) (fun _ => Stdout "x:y")
                 (Returned "/tmp/r.md") (fun _ _ => Returned tt)))
  = (Repo.REPORT_HEADER
     ++ cat_all (map (fun m => ("### " ++ Js.capitalize m ++ " Module"
                                ++ Js.nl ++ Js.nl
                                ++ "- Module directory not found" ++ Js.nl
                                ++ Js.nl)%string)
                     Repo.MODULES)
     ++ Repo.REPORT_FOOTER)%string.
Proof.
  apply (proj2 (repo_report_sections
           (Repo.Env (fun m => Returned ("/tmp/src/modules/" ++ m)%string)
                     (fun _ => false) (fun _ => Stdout "x:y")
                     (Returned "/tmp/r.md") (fun _ _ => Returned tt)))).
  intros m dir _ _. reflexivity.
Defined.

(** * Properties of the label script *)

Section LabelRun.

Variable W : Type.

Variable exec : W -> string -> W * outcome unit.

Lemma create_label_effect (st : Labels.state W) (l : Labels.label) :
  Labels.commands W (Labels.create_label W exec st l)
  = Labels.commands W st ++ [Labels.create_command l] /\
  (Labels.logged_errors W (Labels.create_label W exec st l) = Labels.logged_errors W st
   \/ exists message,
        snd (exec (Labels.world W st) (Labels.create_command l)) = Thrown message /\
        Labels.logged_errors W (Labels.create_label W exec st l)
        = Labels.logged_errors W st
          ++ [("Error with label " ++ Labels.name l ++ ": " ++ message)%string]).
Proof.
  unfold Labels.create_label, Labels.run_command, Labels.log. cbn [Labels.world].
  destruct (exec (Labels.world W st) (Labels.create_command l)) as [w [u|message]];
    cbn; split; auto.
  right. exists message. auto.
Qed.

Lemma createOrUpdateLabel_chunk (st : Labels.state W) (l : Labels.label) :
  exists chunk,
    In chunk (Labels.label_chunks l) /\
    Labels.commands W (Labels.createOrUpdateLabel W exec st l)
    = Labels.commands W st ++ chunk.
Proof.
  unfold Labels.createOrUpdateLabel, Labels.run_command.
  destruct (exec (Labels.world W st) (Labels.get_command l)) as [w1 [u|m]].
  - cbn [Labels.log Labels.world Labels.commands Labels.logged Labels.logged_errors].
    destruct (exec w1 (Labels.edit_command l)) as [w2 [u2|m2]].
    + exists [Labels.get_command l; Labels.edit_command l]. split.
      * left. reflexivity.
      * cbn. rewrite <- app_assoc. reflexivity.
    + exists [Labels.get_command l; Labels.edit_command l; Labels.create_command l].
      split.
      * right. right. left. reflexivity.
      * rewrite (proj1 (create_label_effect _ l)). cbn.
        rewrite <- !app_assoc. reflexivity.
  - exists [Labels.get_command l; Labels.create_command l]. split.
    + right. left. reflexivity.
    + rewrite (proj1 (create_label_effect _ l)). cbn.
      rewrite <- !app_assoc. reflexivity.
Qed.

Lemma fold_labels_chunks (ls : list Labels.label) (st : Labels.state W) :
  exists chunks,
    Forall2 (fun l chunk => In chunk (Labels.label_chunks l)) ls chunks /\
    Labels.commands W (fold_left (Labels.createOrUpdateLabel W exec) ls st)
    = Labels.commands W st ++ concat chunks.
Proof.
  revert st. induction ls as [|l ls IH]; intros st; simpl.
  - exists []. split; [constructor|]. simpl. rewrite app_nil_r. reflexivity.
  - destruct (createOrUpdateLabel_chunk st l) as (chunk & Hc & Hcmd).
    destruct (IH (Labels.createOrUpdateLabel W exec st l)) as (chunks & Hcs & Hcmds).
    exists (chunk :: chunks). split; [constructor; auto|].
    rewrite Hcmds, Hcmd. simpl. rewrite <- app_assoc. reflexivity.
Qed.

(** X14: when [gh --version] succeeds, the run looks every one of the ten
    labels up exactly once, in the configured order, and follows each
    lookup by an edit, by a create, or by an edit and then a create;
    nothing that fails for one label keeps the later labels from being
    processed, and the run ends with status 0. *)
Theorem labels_all_processed (w : W) (u : unit) :
  snd (exec w Labels.version_command) = Returned u ->
  fst (Labels.main W exec w) = 0 /\
  exists chunks,
    Forall2 (fun l chunk => In chunk (Labels.label_chunks l))
            Labels.ALL_LABELS chunks /\
    Labels.commands W (snd (Labels.main W exec w))
    = Labels.version_command :: concat chunks.
Proof.
  intros Hgh. unfold Labels.main, Labels.run_command.
  cbn [Labels.world]. destruct (exec w Labels.version_command) as [w1 r].
  simpl in Hgh. subst r. cbn [fst snd]. split; [reflexivity|].
  destruct (fold_labels_chunks Labels.ALL_LABELS
              (Labels.log W
                 (Labels.State W w1 ([] ++ [Labels.version_command])
                    ["Checking GitHub CLI availability..."] [])
                 "Starting label update process..."))
    as (chunks & Hcs & Hcmds).
  exists chunks. split; [exact Hcs|].
  unfold Labels.log at 1. cbn [Labels.commands]. exact Hcmds.
Qed.

Lemma createOrUpdateLabel_err (st : Labels.state W) (l : Labels.label) :
  Labels.logged_errors W (Labels.createOrUpdateLabel W exec st l) = Labels.logged_errors W st
  \/ exists w' message,
       snd (exec w' (Labels.create_command l)) = Thrown message /\
       Labels.logged_errors W (Labels.createOrUpdateLabel W exec st l)
       = Labels.logged_errors W st
         ++ [("Error with label " ++ Labels.name l ++ ": " ++ message)%string].
Proof.
  unfold Labels.createOrUpdateLabel, Labels.run_command.
  destruct (exec (Labels.world W st) (Labels.get_command l)) as [w1 [u|m]].
  - cbn [Labels.log Labels.world Labels.commands Labels.logged Labels.logged_errors].
    destruct (exec w1 (Labels.edit_command l)) as [w2 [u2|m2]]; [left; reflexivity|].
    match goal with
    | |- context [Labels.create_label W exec ?s l] =>
        destruct (proj2 (create_label_effect s l)) as [H|(message & Hm & H)]
    end; [left; exact H|right].
    exists w2, message. split; [exact Hm | exact H].
  - match goal with
    | |- context [Labels.create_label W exec ?s l] =>
        destruct (proj2 (create_label_effect s l)) as [H|(message & Hm & H)]
    end; [left; exact H|right].
    exists w1, message. split; [exact Hm | exact H].
Qed.

Lemma fold_labels_err (ls : list Labels.label) (st : Labels.state W) :
  exists lines,
    Labels.logged_errors W (fold_left (Labels.createOrUpdateLabel W exec) ls st)
    = Labels.logged_errors W st ++ lines /\
    length lines <= length ls /\
    forall line, In line lines ->
      exists l w' message,
        In l ls /\
        snd (exec w' (Labels.create_command l)) = Thrown message /\
        line = ("Error with label " ++ Labels.name l ++ ": " ++ message)%string.
Proof.
  revert st. induction ls as [|l ls IH]; intros st; simpl.
  - exists []. rewrite app_nil_r. repeat split; auto. intros line [].
  - destruct (IH (Labels.createOrUpdateLabel W exec st l)) as (lines & He & Hlen & Hl).
    destruct (createOrUpdateLabel_err st l) as [H|(w' & message & Hm & H)].
    + exists lines. rewrite He, H. repeat split; auto.
      intros line Hin. destruct (Hl line Hin) as (l' & w' & m & Hl' & Hm & E).
      exists l', w', m. auto.
    + exists (("Error with label " ++ Labels.name l ++ ": " ++ message)%string :: lines).
      rewrite He, H, <- app_assoc. repeat split; auto.
      * simpl. lia.
      * intros line [<-|Hin].
        -- exists l, w', message. auto.
        -- destruct (Hl line Hin) as (l' & w'' & m & Hl' & Hm' & E).
           exists l', w'', m. auto.
Qed.

(** X15: the run ends with status 1 exactly when [gh --version] throws;
    then no label command is executed and the one error line the script
    logs is the hint to install the CLI.  Otherwise it ends with status 0,
    whatever the label commands do, and the last line the script logs is
    the closing summary of all ten labels. *)
Theorem labels_exit_status (w : W) :
  (fst (Labels.main W exec w) = 1 <->
   exists message, snd (exec w Labels.version_command) = Thrown message) /\
  (fst (Labels.main W exec w) = 1 ->
   Labels.commands W (snd (Labels.main W exec w)) = [Labels.version_command] /\
   Labels.logged_errors W (snd (Labels.main W exec w))
   = ["GitHub CLI (gh) not found. Please install and authenticate."]) /\
  (fst (Labels.main W exec w) <> 1 ->
   fst (Labels.main W exec w) = 0 /\
   exists before, Labels.logged W (snd (Labels.main W exec w))
                  = before ++ [Labels.SUMMARY]).
Proof.
  unfold Labels.main, Labels.run_command. cbn [Labels.world].
  destruct (exec w Labels.version_command) as [w1 [u|message]]; cbn [fst snd].
  - split; [|split].
    + split; [discriminate|]. intros (m & Hm). discriminate.
    + discriminate.
    + intros _. split; [reflexivity|].
      unfold Labels.log at 1. cbn [Labels.logged]. eauto.
  - split; [|split].
    + split; eauto.
    + intros _. split; reflexivity.
    + intros H. exfalso. apply H. reflexivity.
Qed.

(** X16: every error line the script itself logs in the label loop (with
    [console.error]) reports a [create] command that threw, with that
    command's message.  The script logs no error of its own for a failing
    lookup or a failing edit: when every create command succeeds it logs no
    error line at all.  (What a failing [gh] child prints on the inherited
    terminal is outside this statement.) *)
Theorem labels_only_create_errors (w : W) (u : unit) :
  snd (exec w Labels.version_command) = Returned u ->
  (forall line, In line (Labels.logged_errors W (snd (Labels.main W exec w))) ->
     exists l w' message,
       In l Labels.ALL_LABELS /\
       snd (exec w' (Labels.create_command l)) = Thrown message /\
       line = ("Error with label " ++ Labels.name l ++ ": " ++ message)%string) /\
  ((forall w' l, In l Labels.ALL_LABELS ->
                 exists u', snd (exec w' (Labels.create_command l)) = Returned u') ->
   Labels.logged_errors W (snd (Labels.main W exec w)) = []).
Proof.
  intros Hgh.
  assert (Hlines : forall line, In line (Labels.logged_errors W (snd (Labels.main W exec w))) ->
            exists l w' message,
              In l Labels.ALL_LABELS /\
              snd (exec w' (Labels.create_command l)) = Thrown message /\
              line = ("Error with label " ++ Labels.name l ++ ": " ++ message)%string).
  { unfold Labels.main, Labels.run_command. cbn [Labels.world].
    destruct (exec w Labels.version_command) as [w1 r].
    simpl in Hgh. subst r. cbn [fst snd].
    unfold Labels.log at 1. cbn [Labels.logged_errors].
    match goal with
    | |- context [fold_left _ _ ?s] =>
        destruct (fold_labels_err Labels.ALL_LABELS s) as (lines & He & _ & Hl)
    end.
    rewrite He. cbn [Labels.log Labels.logged_errors app]. exact Hl. }
  split; [exact Hlines|].
  intros Hcreate.
  destruct (Labels.logged_errors W (snd (Labels.main W exec w))) as [|line rest] eqn:E; auto.
  destruct (Hlines line (or_introl eq_refl)) as (l & w' & message & Hl & Hm & _).
  destruct (Hcreate w' l Hl) as [u' Hu]. congruence.
Qed.

End LabelRun.

Lemma labels_all_processed_witness :
  fst (Labels.main nat gh_edit_fails 0) = 0.
Proof.
  apply (proj1 (labels_all_processed nat gh_edit_fails 0 tt eq_refl)).
Defined.

Lemma labels_exit_status_witness :
  Labels.commands nat (snd (Labels.main nat gh_missing 0))
  = [Labels.version_command].
Proof.
  apply (proj1 (proj1 (proj2 (labels_exit_status nat gh_missing 0)) eq_refl)).
Defined.

Lemma labels_only_create_errors_witness :
  Labels.logged_errors nat (snd (Labels.main nat gh_edit_fails 0)) = [].
Proof.
  apply (proj2 (labels_only_create_errors nat gh_edit_fails 0 tt eq_refl)).
  intros w' l Hl. exists tt. simpl in Hl.
  repeat (destruct Hl as [<-|Hl]; [reflexivity|]). destruct Hl.
Defined.

(** * Properties of the data-access script *)

(** ** The regular expression *)

Lemma strip_prefix_sound (l s s' : string) :
  DataAccess.strip_prefix l s = Some s' -> s = (l ++ s')%string.
Proof.
  revert s. induction l as [|a l IH]; intros s; simpl.
  - congruence.
  - destruct s as [|b s]; [discriminate|].
    destruct (Ascii.eqb a b) eqn:E; [|discriminate].
    apply Ascii.eqb_eq in E. subst b. intros H. rewrite (IH _ H). reflexivity.
Qed.

Lemma strip_prefix_app (l s : string) :
  DataAccess.strip_prefix l (l ++ s) = Some s.
Proof.
  induction l as [|a l IH]; simpl; auto. rewrite Ascii.eqb_refl. exact IH.
Qed.

Lemma greedy_plus_sound (cls : ascii -> bool) (k : string -> option (list string))
  (s cap : string) (caps : list string) :
  DataAccess.greedy_plus cls k s = Some (cap, caps) ->
  exists rest,
    s = (cap ++ rest)%string /\ cap <> EmptyString /\
    DataAccess.every cls cap = true /\ k rest = Some caps.
Proof.
  revert cap. induction s as [|c s IH]; intros cap; simpl; [discriminate|].
  destruct (cls c) eqn:Hc; [|discriminate].
  destruct (DataAccess.greedy_plus cls k s) as [[cap' caps']|] eqn:Hg.
  - intros H. injection H as <- <-.
    destruct (IH cap' eq_refl) as (rest & -> & _ & Hall & Hk).
    exists rest. repeat split; auto; [discriminate|].
    unfold DataAccess.every in *. simpl. rewrite Hc. exact Hall.
  - destruct (k s) as [caps'|] eqn:Hk; [|discriminate].
    intros H. injection H as <- <-.
    exists s. repeat split; auto; [discriminate|].
    unfold DataAccess.every. simpl. rewrite Hc. reflexivity.
Qed.

Lemma greedy_plus_stops (cls : ascii -> bool) (k : string -> option (list string))
  (s : string) :
  DataAccess.stops cls s = true -> DataAccess.greedy_plus cls k s = None.
Proof.
  destruct s as [|c s]; simpl; auto.
  destruct (cls c); [discriminate|reflexivity].
Qed.

Lemma greedy_plus_complete (cls : ascii -> bool) (k : string -> option (list string))
  (cap rest : string) (caps : list string) :
  cap <> EmptyString -> DataAccess.every cls cap = true ->
  DataAccess.stops cls rest = true -> k rest = Some caps ->
  DataAccess.greedy_plus cls k (cap ++ rest) = Some (cap, caps).
Proof.
  intros Hne Hall Hstop Hk. induction cap as [|c cap IH]; [congruence|].
  unfold DataAccess.every in Hall. simpl in Hall.
  apply andb_true_iff in Hall as [Hc Hall]. simpl. rewrite Hc.
  destruct cap as [|c' cap].
  - simpl. rewrite (greedy_plus_stops cls k rest Hstop), Hk. reflexivity.
  - rewrite IH; auto. discriminate.
Qed.

Lemma lazy_dots_sound (k : string -> option (list string)) (s : string)
  (caps : list string) :
  DataAccess.lazy_dots k s = Some caps ->
  exists skipped rest, s = (skipped ++ rest)%string /\ k rest = Some caps.
Proof.
  induction s as [|c s IH]; cbn [DataAccess.lazy_dots].
  - destruct (k EmptyString) eqn:Hk; [|discriminate].
    intros H. exists EmptyString, EmptyString. split; [reflexivity|congruence].
  - destruct (k (String c s)) eqn:Hk.
    + intros H. exists EmptyString, (String c s). split; [reflexivity|congruence].
    + destruct (DataAccess.dot_here (String c s)); [|discriminate].
      intros H. destruct (IH H) as (skipped & rest & -> & Hr).
      exists (String c skipped), rest. auto.
Qed.

Lemma search_re_sound (atoms : list DataAccess.atom) (s : string)
  (caps : list string) :
  DataAccess.search_re atoms s = Some caps ->
  exists before rest,
    s = (before ++ rest)%string /\ DataAccess.match_here atoms rest = Some caps.
Proof.
  induction s as [|c s IH]; cbn [DataAccess.search_re].
  - destruct (DataAccess.match_here atoms EmptyString) eqn:Hm; [|discriminate].
    intros H. exists EmptyString, EmptyString. split; [reflexivity|congruence].
  - destruct (DataAccess.match_here atoms (String c s)) eqn:Hm.
    + intros H. exists EmptyString, (String c s). split; [reflexivity|congruence].
    + intros H. destruct (IH H) as (before & rest & -> & Hr).
      exists (String c before), rest. auto.
Qed.

(** X17: what a recorded access guarantees.  When a line yields a file path
    and a table, the line reads: something, the path, a colon, something,
    [from(], a single or double quote, a schema part, a dot, the table,
    something; the path is non-empty and has no colon, and the table is
    non-empty and has no quote and no closing parenthesis. *)
Theorem line_access_shape (line fp table : string) :
  DataAccess.line_access line = Some (fp, table) ->
  exists before skipped q schema_part after,
    line = (before ++ fp ++ ":" ++ skipped ++ "from("
            ++ String q (schema_part ++ "." ++ table ++ after))%string /\
    (q = DataAccess.apostrophe \/ q = DataAccess.dquote) /\
    fp <> EmptyString /\
    DataAccess.every (DataAccess.is_not [":"%char]) fp = true /\
    table <> EmptyString /\
    DataAccess.every
      (DataAccess.is_not [DataAccess.apostrophe; DataAccess.dquote; ")"%char])
      table = true.
Proof.
  unfold DataAccess.line_access.
  destruct (DataAccess.search_re DataAccess.ACCESS_RE line)
    as [[|g1 [|g2 [|g3 [|g4 caps]]]]|] eqn:Hs; try discriminate.
  intros H. injection H as <- <-.
  apply search_re_sound in Hs as (before & rest & -> & Hm).
  unfold DataAccess.ACCESS_RE in Hm. cbn [DataAccess.match_here] in Hm.
  match type of Hm with
  | match ?g with _ => _ end = _ => destruct g as [[cap1 caps1]|] eqn:Hg1; [|discriminate]
  end.
  injection Hm as -> ->.
  apply greedy_plus_sound in Hg1 as (rest1 & -> & Hne1 & Hall1 & Hk1).
  destruct (DataAccess.strip_prefix ":" rest1) as [rest2|] eqn:Hp1; [|discriminate].
  apply strip_prefix_sound in Hp1. subst rest1.
  apply lazy_dots_sound in Hk1 as (skipped & rest3 & -> & Hk3).
  destruct (DataAccess.strip_prefix "from(" rest3) as [rest4|] eqn:Hp2; [|discriminate].
  apply strip_prefix_sound in Hp2. subst rest3.
  destruct rest4 as [|q rest5]; [discriminate|].
  destruct (DataAccess.is_one_of [DataAccess.apostrophe; DataAccess.dquote] q) eqn:Hq;
    [|discriminate].
  match type of Hk3 with
  | match ?g with _ => _ end = _ => destruct g as [[cap2 caps2]|] eqn:Hg2; [|discriminate]
  end.
  injection Hk3 as -> ->.
  apply greedy_plus_sound in Hg2 as (rest6 & -> & _ & _ & Hk6).
  destruct (DataAccess.strip_prefix "." rest6) as [rest7|] eqn:Hp3; [|discriminate].
  apply strip_prefix_sound in Hp3. subst rest6.
  match type of Hk6 with
  | match ?g with _ => _ end = _ => destruct g as [[cap3 caps3]|] eqn:Hg3; [|discriminate]
  end.
  injection Hk6 as -> _.
  apply greedy_plus_sound in Hg3 as (rest8 & -> & Hne3 & Hall3 & _).
  exists before, skipped, q, g2, rest8. repeat split; auto.
  unfold DataAccess.is_one_of in Hq. simpl in Hq.
  rewrite !orb_true_iff in Hq. destruct Hq as [Hq|[Hq|Hq]]; [| |discriminate];
    apply Ascii.eqb_eq in Hq; auto.
Qed.

Lemma line_access_shape_witness :
  exists before skipped q schema_part after,
    ("./src/a.ts:12:  db.from('auth.users').select()")%string
    = (before ++ "./src/a.ts" ++ ":" ++ skipped ++ "from("
       ++ String q (schema_part ++ "." ++ "users" ++ after))%string /\
    (q = DataAccess.apostrophe \/ q = DataAccess.dquote) /\
    "./src/a.ts" <> EmptyString /\
    DataAccess.every (DataAccess.is_not [":"%char]) "./src/a.ts" = true /\
    "users" <> EmptyString /\
    DataAccess.every
      (DataAccess.is_not [DataAccess.apostrophe; DataAccess.dquote; ")"%char])
      "users" = true.
Proof.
  apply (line_access_shape "./src/a.ts:12:  db.from('auth.users').select()"
           "./src/a.ts" "users").
  vm_compute. reflexivity.
Defined.

Lemma from_not_early (v rest : string) :
  v <> EmptyString -> prefix "from(" v = false ->
  DataAccess.strip_prefix "from(" (v ++ "from(" ++ rest) = None.
Proof.
  intros Hne Hp.
  destruct (DataAccess.strip_prefix "from(" (v ++ "from(" ++ rest)) as [s'|] eqn:E;
    [exfalso|reflexivity].
  assert (Hpre : prefix "from(" v = true); [|congruence].
  clear Hp. apply prefix_iff.
  destruct v as [|c1 v]; [congruence|].
  cbn [DataAccess.strip_prefix append] in E.
  destruct (Ascii.eqb "f" c1) eqn:E1; [|discriminate].
  apply Ascii.eqb_eq in E1. subst c1.
  destruct v as [|c2 v]; [simpl in E; discriminate|].
  cbn [DataAccess.strip_prefix append] in E.
  destruct (Ascii.eqb "r" c2) eqn:E2; [|discriminate].
  apply Ascii.eqb_eq in E2. subst c2.
  destruct v as [|c3 v]; [simpl in E; discriminate|].
  cbn [DataAccess.strip_prefix append] in E.
  destruct (Ascii.eqb "o" c3) eqn:E3; [|discriminate].
  apply Ascii.eqb_eq in E3. subst c3.
  destruct v as [|c4 v]; [simpl in E; discriminate|].
  cbn [DataAccess.strip_prefix append] in E.
  destruct (Ascii.eqb "m" c4) eqn:E4; [|discriminate].
  apply Ascii.eqb_eq in E4. subst c4.
  destruct v as [|c5 v]; [simpl in E; discriminate|].
  cbn [DataAccess.strip_prefix append] in E.
  destruct (Ascii.eqb "(" c5) eqn:E5; [|discriminate].
  apply Ascii.eqb_eq in E5. subst c5.
  exists v. reflexivity.
Qed.

Lemma includes_cons_false (c : ascii) (s sub : string) :
  Js.includes (String c s) sub = false ->
  prefix sub (String c s) = false /\ Js.includes s sub = false.
Proof.
  cbn [Js.includes]. destruct (prefix sub (String c s)); [discriminate|auto].
Qed.

Lemma lazy_dots_to_from (rest : string) (caps : list string) (skipped : string)
  (k : string -> option (list string)) :
  (forall s, DataAccess.strip_prefix "from(" s = None -> k s = None) ->
  DataAccess.every (DataAccess.is_not ["010"; "013"; "226"]%char) skipped = true ->
  Js.includes skipped "from(" = false ->
  k ("from(" ++ rest)%string = Some caps ->
  DataAccess.lazy_dots k (skipped ++ "from(" ++ rest) = Some caps.
Proof.
  intros Hk Hall Hinc Hrest. induction skipped as [|c skipped IH].
  - simpl append. destruct rest; cbn [DataAccess.lazy_dots append];
      cbn [append] in Hrest; rewrite Hrest; reflexivity.
  - apply includes_cons_false in Hinc as [Hp Hinc].
    unfold DataAccess.every in Hall. simpl in Hall.
    apply andb_true_iff in Hall as [Hc Hall].
    change (String c skipped ++ "from(" ++ rest)%string
      with (String c (skipped ++ "from(" ++ rest))%string.
    cbn [DataAccess.lazy_dots].
    rewrite (Hk (String c (skipped ++ "from(" ++ rest))%string).
    + assert (Hdot : DataAccess.dot_here (String c (skipped ++ "from(" ++ rest)) = true).
      { unfold DataAccess.is_not in Hc. simpl in Hc.
        rewrite !negb_true_iff, !orb_false_iff in Hc.
        destruct Hc as (H1 & H2 & H3 & _).
        unfold DataAccess.dot_here. rewrite H1, H2, H3. reflexivity. }
      rewrite Hdot. apply IH; auto.
    + apply (from_not_early (String c skipped) rest); [discriminate|exact Hp].
Qed.

Lemma match_here_lit (l : string) (rest : list DataAccess.atom) (s : string) :
  DataAccess.match_here (DataAccess.Lit l :: rest) s
  = match DataAccess.strip_prefix l s with
    | Some s' => DataAccess.match_here rest s'
    | None => None
    end.
Proof. reflexivity. Qed.

Lemma match_here_one (cls : ascii -> bool) (rest : list DataAccess.atom)
  (c : ascii) (s : string) :
  DataAccess.match_here (DataAccess.One cls :: rest) (String c s)
  = if cls c then DataAccess.match_here rest s else None.
Proof. reflexivity. Qed.

Lemma match_here_capture (cls : ascii -> bool) (rest : list DataAccess.atom)
  (s : string) :
  DataAccess.match_here (DataAccess.CapturePlus cls :: rest) s
  = match DataAccess.greedy_plus cls (DataAccess.match_here rest) s with
    | Some (cap, caps) => Some (cap :: caps)
    | None => None
    end.
Proof. reflexivity. Qed.

Lemma match_here_lazy (rest : list DataAccess.atom) (s : string) :
  DataAccess.match_here (DataAccess.LazyDots :: rest) s
  = DataAccess.lazy_dots (DataAccess.match_here rest) s.
Proof. reflexivity. Qed.

Lemma search_re_here (atoms : list DataAccess.atom) (s : string)
  (caps : list string) :
  DataAccess.match_here atoms s = Some caps ->
  DataAccess.search_re atoms s = Some caps.
Proof.
  intros H. destruct s; cbn [DataAccess.search_re]; rewrite H; reflexivity.
Qed.

(** X18: a line of the usual form is recorded under its file and its table.
    For a non-empty path without colon, a stretch of text that has no
    [from(] and none of the bytes LF, CR and 0xE2, a quote, a non-empty
    schema part without dot and apostrophe, and a non-empty table name
    without quotes and closing parenthesis that ends the line or is followed
    by one of those three characters, the expression captures exactly that
    path and that table. *)
Theorem line_access_complete (fp skipped schema_part table after : string)
  (q : ascii) :
  fp <> EmptyString ->
  DataAccess.every (DataAccess.is_not [":"%char]) fp = true ->
  DataAccess.every (DataAccess.is_not ["010"; "013"; "226"]%char) skipped = true ->
  Js.includes skipped "from(" = false ->
  q = DataAccess.apostrophe \/ q = DataAccess.dquote ->
  schema_part <> EmptyString ->
  DataAccess.every (DataAccess.is_not ["."%char; DataAccess.apostrophe])
                   schema_part = true ->
  table <> EmptyString ->
  DataAccess.every
    (DataAccess.is_not [DataAccess.apostrophe; DataAccess.dquote; ")"%char])
    table = true ->
  DataAccess.stops
    (DataAccess.is_not [DataAccess.apostrophe; DataAccess.dquote; ")"%char])
    after = true ->
  DataAccess.line_access
    (fp ++ ":" ++ skipped ++ "from("
     ++ String q (schema_part ++ "." ++ table ++ after))
  = Some (fp, table).
Proof.
  intros Hfp Hfp' Hsk Hinc Hq Hs Hs' Ht Ht' Hafter.
  unfold DataAccess.line_access.
  rewrite (search_re_here DataAccess.ACCESS_RE _ [fp; schema_part; table]);
    [reflexivity|].
  unfold DataAccess.ACCESS_RE. rewrite match_here_capture.
  rewrite (greedy_plus_complete _ _ fp _ [schema_part; table]); auto.
  rewrite match_here_lit, strip_prefix_app, match_here_lazy.
  apply lazy_dots_to_from; auto.
  - intros s Hnone. rewrite match_here_lit, Hnone. reflexivity.
  - rewrite match_here_lit, strip_prefix_app, match_here_one.
    assert (Hq' : DataAccess.is_one_of [DataAccess.apostrophe; DataAccess.dquote] q = true).
    { destruct Hq as [->| ->]; reflexivity. }
    rewrite Hq', match_here_capture.
    rewrite (greedy_plus_complete _ _ schema_part _ [table]); auto.
    rewrite match_here_lit, strip_prefix_app, match_here_capture.
    rewrite (greedy_plus_complete _ _ table after []); auto.
Qed.

Lemma line_access_complete_witness :
  DataAccess.line_access
    ("./src/lib/db.ts" ++ ":" ++ "  return supabase." ++ "from("
     ++ String DataAccess.apostrophe ("auth" ++ "." ++ "users" ++ "').select('*')"))
  = Some ("./src/lib/db.ts", "users").
Proof.
  apply (line_access_complete "./src/lib/db.ts" "  return supabase." "auth"
           "users" "').select('*')" DataAccess.apostrophe);
    try reflexivity; try discriminate.
  left. reflexivity.
Defined.

(** ** Recording the accesses *)

Lemma assoc_find_map {V : Type} (g : string -> V) (name : string) (ks : list string) :
  option_map snd
    (find (fun kv : string * V => fst kv =? name)%string (map (fun k => (k, g k)) ks))
  = if existsb (fun y => y =? name)%string ks then Some (g name) else None.
Proof.
  induction ks as [|k ks IH]; simpl; auto.
  destruct (k =? name)%string eqn:E; simpl; auto.
  apply String.eqb_eq in E. subst. reflexivity.
Qed.

Lemma push_file_map (g : string -> list string) (table file : string)
  (ks : list string) :
  NoDup ks ->
  DataAccess.push_file table file (map (fun k => (k, g k)) ks)
  = map (fun k => (k, if (table =? k)%string then g k ++ [file] else g k)) ks.
Proof.
  induction 1 as [|k ks Hk Hks IH]; simpl; auto.
  rewrite (String.eqb_sym table k).
  destruct (k =? table)%string eqn:E; [|rewrite IH; reflexivity].
  f_equal. apply String.eqb_eq in E. subst k.
  apply map_ext_in. intros k Hin.
  destruct (table =? k)%string eqn:E; auto.
  apply String.eqb_eq in E. congruence.
Qed.

Lemma files_of_snoc (table : string) (accs : list (string * string))
  (a : string * string) :
  DataAccess.files_of table (accs ++ [a])
  = DataAccess.files_of table accs
    ++ (if (snd a =? table)%string then [fst a] else []).
Proof.
  unfold DataAccess.files_of. rewrite filter_app, map_app. simpl.
  destruct (snd a =? table)%string; reflexivity.
Qed.

Lemma files_of_absent (table : string) (accs : list (string * string)) :
  ~ In table (map snd accs) -> DataAccess.files_of table accs = [].
Proof.
  unfold DataAccess.files_of. induction accs as [|a accs IH]; simpl; auto.
  intros H. destruct (snd a =? table)%string eqn:E.
  - apply String.eqb_eq in E. tauto.
  - apply IH. tauto.
Qed.

Lemma tables_of_snoc (accs : list (string * string)) (a : string * string) :
  DataAccess.tables_of (accs ++ [a])
  = DataAccess.store_access (DataAccess.tables_of accs) a.
Proof.
  unfold DataAccess.store_access, DataAccess.get_own, DataAccess.tables_of.
  rewrite assoc_find_map, existsb_first_occurrences, map_app. simpl.
  rewrite first_occurrences_snoc.
  destruct (existsb (fun y => y =? snd a)%string (map snd accs)) eqn:Hseen.
  - rewrite app_nil_r, push_file_map by apply NoDup_first_occurrences.
    apply map_ext. intros k. rewrite files_of_snoc.
    destruct (snd a =? k)%string; [|rewrite app_nil_r]; reflexivity.
  - assert (Hnot : ~ In (snd a) (map snd accs)).
    { intros Hin. apply existsb_eqb_In in Hin. congruence. }
    rewrite map_app. simpl. f_equal.
    + apply map_ext_in. intros k Hk. rewrite files_of_snoc.
      destruct (snd a =? k)%string eqn:E; [|rewrite app_nil_r; reflexivity].
      apply String.eqb_eq in E. subst k. exfalso. apply Hnot.
      apply In_first_occurrences. exact Hk.
    + rewrite files_of_snoc, String.eqb_refl, (files_of_absent _ _ Hnot).
      reflexivity.
Qed.

Lemma fold_store_tables_of (accs : list (string * string)) :
  fold_left DataAccess.store_access accs [] = DataAccess.tables_of accs.
Proof.
  induction accs as [|a accs IH] using rev_ind; [reflexivity|].
  rewrite fold_left_app. simpl. rewrite IH. symmetry. apply tables_of_snoc.
Qed.

Lemma record_lines_store (lines : list string) (tables : DataAccess.tables_t) :
  (forall a, In a (DataAccess.accesses lines) ->
             DataAccess.inherited (snd a) = false) ->
  DataAccess.record_lines tables lines
  = (fold_left DataAccess.store_access (DataAccess.accesses lines) tables, None).
Proof.
  revert tables. induction lines as [|line lines IH]; intros tables H; [reflexivity|].
  cbn [DataAccess.record_lines DataAccess.accesses flat_map] in *.
  unfold DataAccess.record_line.
  destruct (DataAccess.line_access line) as [[fp table]|] eqn:E.
  - assert (Hi : DataAccess.inherited table = false).
    { apply (H (fp, table)). left. reflexivity. }
    unfold DataAccess.record_access. unfold DataAccess.inherited in Hi.
    cbn [app fold_left]. unfold DataAccess.store_access at 2. cbn [fst snd].
    destruct (DataAccess.get_own table tables); [|rewrite Hi];
      apply IH; intros a Ha; apply H; right; exact Ha.
  - apply IH. intros a Ha. apply H. exact Ha.
Qed.

(** X19: when no recorded table name is a property of [Object.prototype],
    the lines of one schema are recorded without error: there is one entry
    per table, in first-seen order, and the entry of a table lists the file
    of every line that accesses it, in line order and with repetitions (a
    file with two such lines is listed twice). *)
Theorem tables_recorded_in_order (lines : list string) :
  (forall a, In a (DataAccess.accesses lines) ->
             DataAccess.inherited (snd a) = false) ->
  DataAccess.record_lines [] lines
  = (map (fun table =>
            (table,
             map fst (filter (fun a => snd a =? table)%string
                             (DataAccess.accesses lines))))
         (first_occurrences (map snd (DataAccess.accesses lines))),
     None).
Proof.
  intros H. rewrite (record_lines_store lines [] H), fold_store_tables_of.
  reflexivity.
Qed.

Lemma tables_recorded_in_order_witness :
  DataAccess.record_lines []
    (DataAccess.schema_lines access_demo_env "auth")
  = ([ ("users", ["./src/a.ts"; "./src/a.ts"]); ("sessions", ["./src/b.ts"]) ],
     None).
Proof.
  rewrite (tables_recorded_in_order
             (DataAccess.schema_lines access_demo_env "auth")).
  - vm_compute. reflexivity.
  - intros a Ha. vm_compute in Ha.
    destruct Ha as [<-|[<-|[<-|[]]]]; reflexivity.
Defined.

Lemma record_lines_app (l1 l2 : list string) (tables : DataAccess.tables_t) :
  DataAccess.record_lines tables (l1 ++ l2)
  = match snd (DataAccess.record_lines tables l1) with
    | None => DataAccess.record_lines (fst (DataAccess.record_lines tables l1)) l2
    | Some _ => DataAccess.record_lines tables l1
    end.
Proof.
  revert tables. induction l1 as [|line l1 IH]; intros tables; [reflexivity|].
  cbn [app DataAccess.record_lines].
  destruct (DataAccess.record_line tables line) as [tables'|message];
    [apply IH|reflexivity].
Qed.

(** X20: a table name that is a property of [Object.prototype] (such as
    [constructor] or [toString]) ends the recording of its schema: the lines
    before it are kept, the line itself and all later lines of that search
    are lost, and the error of the failed [push] is what the loop leaves. *)
Theorem inherited_name_aborts (before after : list string) (line fp table : string) :
  (forall a, In a (DataAccess.accesses before) ->
             DataAccess.inherited (snd a) = false) ->
  DataAccess.line_access line = Some (fp, table) ->
  DataAccess.inherited table = true ->
  DataAccess.record_lines [] (before ++ line :: after)
  = (DataAccess.tables_of (DataAccess.accesses before),
     Some DataAccess.PUSH_ERROR).
Proof.
  intros Hbefore Hline Hinh.
  rewrite record_lines_app, (record_lines_store before [] Hbefore).
  cbn [fst snd DataAccess.record_lines]. rewrite fold_store_tables_of.
  unfold DataAccess.record_line. rewrite Hline.
  unfold DataAccess.record_access, DataAccess.get_own, DataAccess.tables_of.
  rewrite assoc_find_map, existsb_first_occurrences.
  destruct (existsb (fun y => y =? table)%string
              (map snd (DataAccess.accesses before))) eqn:Hseen.
  - apply existsb_eqb_In, in_map_iff in Hseen as (a & <- & Ha).
    rewrite (Hbefore a Ha) in Hinh. discriminate.
  - unfold DataAccess.inherited in Hinh. rewrite Hinh. reflexivity.
Qed.

Lemma inherited_name_aborts_witness :
  DataAccess.record_lines []
    ([ "./src/a.ts:  db.from('auth.users')" ]
     ++ "./src/b.ts:  db.from('auth.constructor')"
     :: [ "./src/c.ts:  db.from('auth.sessions')" ])
  = ([ ("users", ["./src/a.ts"]) ], Some DataAccess.PUSH_ERROR).
Proof.
  apply (inherited_name_aborts [ "./src/a.ts:  db.from('auth.users')" ]
           [ "./src/c.ts:  db.from('auth.sessions')" ]
           "./src/b.ts:  db.from('auth.constructor')" "./src/b.ts" "constructor").
  - intros a Ha. vm_compute in Ha. destruct Ha as [<-|[]]. reflexivity.
  - vm_compute. reflexivity.
  - reflexivity.
Defined.

(** ** Schemas and the enumeration of tables *)

Lemma access_assign_fresh (key : string) (v : DataAccess.tables_t)
  (results : DataAccess.results_t) :
  ~ In key (map fst results) ->
  DataAccess.assign key v results = results ++ [(key, v)].
Proof.
  induction results as [|[k w] results IH]; simpl; auto. intros H.
  destruct (k =? key)%string eqn:E.
  - apply String.eqb_eq in E. tauto.
  - rewrite IH by tauto. reflexivity.
Qed.

Lemma scan_schema_lines (env : DataAccess.environment)
  (results : DataAccess.results_t) (schema : string) :
  DataAccess.scan_schema env results schema
  = match DataAccess.schema_lines env schema with
    | [] => results
    | _ :: _ =>
        DataAccess.assign schema
          (fst (DataAccess.record_lines [] (DataAccess.schema_lines env schema)))
          results
    end.
Proof.
  unfold DataAccess.scan_schema, DataAccess.schema_lines.
  destruct (DataAccess.search env schema) as [output|status message]; [|reflexivity].
  destruct (output_lines output); reflexivity.
Qed.

Lemma fold_scan_schema (env : DataAccess.environment) (schemas : list string)
  (acc : DataAccess.results_t) :
  NoDup schemas -> (forall s, In s schemas -> ~ In s (map fst acc)) ->
  fold_left (DataAccess.scan_schema env) schemas acc
  = acc
    ++ map (fun s => (s, fst (DataAccess.record_lines []
                                (DataAccess.schema_lines env s))))
           (filter (fun s => match DataAccess.schema_lines env s with
                             | [] => false
                             | _ :: _ => true
                             end) schemas).
Proof.
  intros Hnd. revert acc. induction Hnd as [|s schemas Hs Hnd IH]; intros acc H.
  - simpl. rewrite app_nil_r. reflexivity.
  - cbn [fold_left filter]. rewrite scan_schema_lines.
    destruct (DataAccess.schema_lines env s) as [|line lines] eqn:E.
    + apply IH. intros s' Hs'. apply H. right. exact Hs'.
    + rewrite access_assign_fresh by (apply H; left; reflexivity).
      rewrite IH.
      * rewrite <- app_assoc. cbn [map app]. rewrite E. reflexivity.
      * intros s' Hs'. rewrite map_app, in_app_iff. simpl.
        intros [Hin|[<-|[]]]; [|tauto].
        apply (H s'); auto. right. exact Hs'.
Qed.

(** X21: the result has an entry for exactly those configured schemas whose
    search printed at least one line, in the configured order, and the entry
    of a schema is what its own lines record.  A schema whose lines yield no
    access at all still gets an entry, and its section of the report is the
    bare heading. *)
Theorem schema_entries (env : DataAccess.environment) :
  DataAccess.findDirectSchemaAccess env
  = map (fun s => (s, fst (DataAccess.record_lines []
                             (DataAccess.schema_lines env s))))
        (filter (fun s => match DataAccess.schema_lines env s with
                          | [] => false
                          | _ :: _ => true
                          end) DataAccess.SCHEMAS) /\
  (forall s, In s DataAccess.SCHEMAS ->
     DataAccess.schema_lines env s <> [] ->
     DataAccess.accesses (DataAccess.schema_lines env s) = [] ->
     In (s, []) (DataAccess.findDirectSchemaAccess env) /\
     DataAccess.schema_text (s, [])
     = ("### " ++ s ++ " Schema" ++ Js.nl ++ Js.nl)%string).
Proof.
  assert (H : DataAccess.findDirectSchemaAccess env
              = map (fun s => (s, fst (DataAccess.record_lines []
                                         (DataAccess.schema_lines env s))))
                    (filter (fun s => match DataAccess.schema_lines env s with
                                      | [] => false
                                      | _ :: _ => true
                                      end) DataAccess.SCHEMAS)).
  { unfold DataAccess.findDirectSchemaAccess.
    rewrite fold_scan_schema; [reflexivity| |intros s _ []].
    unfold DataAccess.SCHEMAS.
    repeat (constructor; [simpl; intuition discriminate|]). constructor. }
  split; [exact H|].
  intros s Hs Hlines Hacc. split.
  - rewrite H. apply in_map_iff. exists s. split.
    + rewrite record_lines_store by (rewrite Hacc; intros a []).
      rewrite Hacc. reflexivity.
    + apply filter_In. split; auto.
      destruct (DataAccess.schema_lines env s); [congruence|reflexivity].
  - unfold DataAccess.schema_text. cbn [fst snd].
    change (DataAccess.entries []) with (@nil (string * list string)).
    reflexivity.
Qed.

Lemma schema_entries_witness :
  In ("auth", [])
     (DataAccess.findDirectSchemaAccess
        (DataAccess.Env
           (fun schema => if (schema =? "auth")%string
                          then Stdout "Binary file ./dist/app.js matches"
                          else ExecError (Some 1) "Command failed")
           (Returned "/repo/report.md") (fun _ _ => Returned tt))).
Proof.
  apply (proj2 (schema_entries
           (DataAccess.Env
              (fun schema => if (schema =? "auth")%string
                             then Stdout "Binary file ./dist/app.js matches"
                             else ExecError (Some 1) "Command failed")
              (Returned "/repo/report.md") (fun _ _ => Returned tt)))
           "auth").
  - simpl. auto.
  - vm_compute. discriminate.
  - vm_compute. reflexivity.
Defined.

Lemma insert_index_perm (n : N) (kv : string * list string)
  (sorted : list (N * (string * list string))) :
  Permutation (map snd (DataAccess.insert_index n kv sorted))
              (kv :: map snd sorted).
Proof.
  induction sorted as [|[m kv'] sorted IH]; simpl; auto.
  destruct (N.leb n m); simpl; auto.
  rewrite IH. apply perm_swap.
Qed.

Lemma filter_split_perm {A} (p : A -> bool) (l : list A) :
  Permutation (filter p l ++ filter (fun x => negb (p x)) l) l.
Proof.
  induction l as [|x l IH]; simpl; auto.
  destruct (p x); simpl.
  - constructor. exact IH.
  - rewrite <- Permutation_middle. constructor. exact IH.
Qed.

Lemma entries_perm (tables : DataAccess.tables_t) :
  Permutation (DataAccess.entries tables) tables /\
  ((forall kv, In kv tables -> DataAccess.array_index (fst kv) = None) ->
   DataAccess.entries tables = tables).
Proof.
  unfold DataAccess.entries. split.
  - rewrite <- (filter_split_perm
                  (fun kv => match DataAccess.array_index (fst kv) with
                             | Some _ => true
                             | None => false
                             end) tables) at 3.
    apply Permutation_app.
    + induction tables as [|kv tables IH]; simpl; auto.
      destruct (DataAccess.array_index (fst kv)); simpl; auto.
      rewrite insert_index_perm. constructor. exact IH.
    + apply Permutation_refl'. apply filter_ext.
      intros kv. destruct (DataAccess.array_index (fst kv)); reflexivity.
  - intros H.
    assert (Hidx : fold_right
                     (fun kv sorted =>
                        match DataAccess.array_index (fst kv) with
                        | Some n => DataAccess.insert_index n kv sorted
                        | None => sorted
                        end) [] tables = []).
    { induction tables as [|kv tables IH]; [reflexivity|].
      cbn [fold_right]. rewrite (H kv (or_introl eq_refl)).
      apply IH. intros kv' Hkv'. apply H. right. exact Hkv'. }
    rewrite Hidx. cbn [map app].
    induction tables as [|kv tables IH]; [reflexivity|].
    cbn [filter]. rewrite (H kv (or_introl eq_refl)). f_equal.
    apply IH.
    + intros kv' Hkv'. apply H. right. exact Hkv'.
    + cbn [fold_right] in Hidx. rewrite (H kv (or_introl eq_refl)) in Hidx.
      exact Hidx.
Qed.

(** X22: the section of a schema lists the recorded tables, each exactly
    once: the table texts follow the heading in the order of
    [Object.entries], which is a rearrangement of the recorded tables; and
    when no table name is an array index (a canonical decimal numeral below
    [2^32 - 1]) they come in the order in which they were first recorded. *)
Theorem schema_section_lists_tables (schema : string) (tables : DataAccess.tables_t) :
  (exists listed,
      Permutation listed tables /\
      DataAccess.schema_text (schema, tables)
      = ("### " ++ schema ++ " Schema" ++ Js.nl ++ Js.nl
         ++ cat_all (map DataAccess.table_text listed))%string) /\
  ((forall kv, In kv tables -> DataAccess.array_index (fst kv) = None) ->
   DataAccess.schema_text (schema, tables)
   = ("### " ++ schema ++ " Schema" ++ Js.nl ++ Js.nl
      ++ cat_all (map DataAccess.table_text tables))%string).
Proof.
  destruct (entries_perm tables) as [Hperm Hid]. split.
  - exists (DataAccess.entries tables). split; [exact Hperm|reflexivity].
  - intros H. unfold DataAccess.schema_text. cbn [fst snd].
    rewrite (Hid H). reflexivity.
Qed.

Lemma schema_section_lists_tables_witness :
  DataAccess.schema_text
    ("auth", [ ("users", ["./src/a.ts"]); ("sessions", ["./src/b.ts"]) ])
  = ("### " ++ "auth" ++ " Schema" ++ Js.nl ++ Js.nl
     ++ cat_all (map DataAccess.table_text
                     [ ("users", ["./src/a.ts"]); ("sessions", ["./src/b.ts"]) ]))%string.
Proof.
  apply (proj2 (schema_section_lists_tables "auth"
                  [ ("users", ["./src/a.ts"]); ("sessions", ["./src/b.ts"]) ])).
  intros kv Hkv. simpl in Hkv. destruct Hkv as [<-|[<-|[]]]; reflexivity.
Defined.

(** X23: nothing found is lost, and the schema named in the line plays no
    part.  When no recorded table name of a search is a property of
    [Object.prototype], every access found in a line that the search for a
    configured schema printed is in the result: the file is listed under
    the table, in the entry of the schema that was searched for. *)
Theorem access_reported_under_searched_schema (env : DataAccess.environment)
  (schema line fp table : string) :
  In schema DataAccess.SCHEMAS ->
  In line (DataAccess.schema_lines env schema) ->
  DataAccess.line_access line = Some (fp, table) ->
  (forall a, In a (DataAccess.accesses (DataAccess.schema_lines env schema)) ->
             DataAccess.inherited (snd a) = false) ->
  exists tables files,
    In (schema, tables) (DataAccess.findDirectSchemaAccess env) /\
    In (table, files) tables /\ In fp files.
Proof.
  intros Hs Hline Hacc Hinh.
  set (lines := DataAccess.schema_lines env schema) in *.
  assert (Ha : In (fp, table) (DataAccess.accesses lines)).
  { unfold DataAccess.accesses. apply in_flat_map. exists line. split; auto.
    rewrite Hacc. left. reflexivity. }
  exists (DataAccess.tables_of (DataAccess.accesses lines)),
         (DataAccess.files_of table (DataAccess.accesses lines)).
  repeat split.
  - rewrite (proj1 (schema_entries env)). apply in_map_iff. exists schema. split.
    + fold lines. rewrite (record_lines_store lines [] Hinh), fold_store_tables_of.
      reflexivity.
    + apply filter_In. split; auto. fold lines.
      destruct lines; [destruct Hline|reflexivity].
  - unfold DataAccess.tables_of. apply in_map_iff. exists table. split; auto.
    apply In_first_occurrences. apply (in_map snd) in Ha. exact Ha.
  - unfold DataAccess.files_of. apply in_map_iff. exists (fp, table). split; auto.
    apply filter_In. split; auto. apply String.eqb_refl.
Qed.

Lemma access_reported_under_searched_schema_witness :
  exists tables files,
    In ("public", tables)
       (DataAccess.findDirectSchemaAccess
          (DataAccess.Env
             (fun schema =>
                if (schema =? "public")%string
                then Stdout "./src/a.ts:join(from('auth.users'), from('public.items'))"
                else ExecError (Some 1) "Command failed")
             (Returned "/repo/report.md") (fun _ _ => Returned tt))) /\
    In ("users", files) tables /\ In "./src/a.ts" files.
Proof.
  apply (access_reported_under_searched_schema
           (DataAccess.Env
              (fun schema =>
                 if (schema =? "public")%string
                 then Stdout "./src/a.ts:join(from('auth.users'), from('public.items'))"
                 else ExecError (Some 1) "Command failed")
              (Returned "/repo/report.md") (fun _ _ => Returned tt))
           "public" "./src/a.ts:join(from('auth.users'), from('public.items'))"
           "./src/a.ts" "users").
  - simpl. auto.
  - vm_compute. auto.
  - vm_compute. reflexivity.
  - intros a Ha. vm_compute in Ha. destruct Ha as [<-|[]]. reflexivity.
Defined.
